(** * The depth-engraving toolpath engine of next-gen

    A shallow embedding of the engraving services (DeepEngravingService,
    DepthMapService, LaserEngravingService, LaserProfileService,
    ProfileManagerService) and the properties their specification states.

    Numbers.  A JavaScript number is modelled as a real number: the
    arithmetic of the services is read exactly, without the rounding of
    IEEE doubles and without the values NaN and Infinity.  Where the code
    can leave the finite numbers (a division by zero, [Math.max()] of no
    argument, a lookup outside an array) the lemmas carry the hypothesis
    that keeps it inside, or the embedding returns [None].  The custom-curve
    interpolation is embedded a second time on IEEE doubles
    ([DepthMapServiceDouble]), where its rounding shows.

    State.  A method that writes to its service takes the state and returns
    the new one; a method that can throw returns an [outcome], and the call
    of a method that its class does not define throws a [TypeError].  The
    stubs of
    the sources (path generators, blur, normal and height maps) are
    embedded as they are written: they return the empty path or leave their
    buffer untouched. *)

From Stdlib Require Import Reals Lra Lia ZArith Bool String List Sorted.
From Stdlib Require Import Strings.Byte.
From Corelib Require PrimFloat.
Import ListNotations.

Open Scope R_scope.

(* ================================================================== *)
(** * The JavaScript platform *)
(* ================================================================== *)

Module JS.

(** ** Math *)

Definition Math_min (a b : R) : R := Rmin a b.
Definition Math_max (a b : R) : R := Rmax a b.

(** [Math.floor] and [Math.ceil], as integers. *)
Definition Math_floor (x : R) : Z := Int_part x.
Definition Math_ceil (x : R) : Z := (- Int_part (- x))%Z.

(** [Math.round]: the nearest integer, a half rounding up. *)
Definition Math_round (x : R) : Z := Int_part (x + 0.5).

(** [Math.pow(x, y)] for a base [x >= 0]: [x^y] is [exp (y ln x)] for a
    positive base, and a zero base gives 1 at exponent 0 and 0 at a
    positive exponent.  (A negative base with a fractional exponent is NaN
    and a zero base with a negative exponent is Infinity: both outside the
    model.) *)
Definition Math_pow (x y : R) : R :=
  if Req_dec_T x 0 then (if Req_dec_T y 0 then 1 else 0) else Rpower x y.

(** [Math.pow(x, n)] at an exponent that is a non-negative integer in the
    source (a literal or a loop counter). *)
Definition Math_pow_nat (x : R) (n : nat) : R := x ^ n.

Definition Math_E : R := exp 1.
Definition Math_log (x : R) : R := ln x.

(** [Math.max(...xs)]: the greatest element; of no argument it is
    -Infinity, which the model does not have. *)
Definition Math_max_list (xs : list R) : option R :=
  match xs with
  | [] => None
  | x :: rest => Some (fold_left Rmax rest x)
  end.

(** ** Loops *)

(** [for (let i = i0; i < bound; i++) st = body i st], with a real-valued
    bound.  The fuel counts the tests of the loop condition. *)
Fixpoint for_lt {S : Type} (fuel : nat) (i : nat) (bound : R)
         (body : nat -> S -> S) (st : S) : option S :=
  match fuel with
  | O => None
  | Datatypes.S fuel' =>
      if Rlt_dec (INR i) bound
      then for_lt fuel' (Datatypes.S i) bound body (body i st)
      else Some st
  end.

(** Fuel that lets a loop from 0 to [bound] finish. *)
Definition fuel_for (bound : R) : nat := S (Z.to_nat (up bound)).

(** [for (let i = 0; i < n; i++) st = body i st], with an integer bound. *)
Definition for_range {S : Type} (n : nat) (body : nat -> S -> S) (st : S) : S :=
  fold_left (fun s i => body i s) (seq 0 n) st.

(** ** Exceptions *)

Inductive error : Type :=
| SyntaxError
| TypeError.

Inductive outcome (A : Type) : Type :=
| Returns (a : A)
| Throws (e : error).
Arguments Returns {A} a.
Arguments Throws {A} e.

Definition bind {A B : Type} (m : outcome A) (k : A -> outcome B) : outcome B :=
  match m with
  | Returns a => k a
  | Throws e => Throws e
  end.

(** [this.method(args)], with [method] what the property holds: a function,
    or [undefined], whose call throws a [TypeError]. *)
Definition invoke {A B : Type} (method : option (A -> B)) (args : A) : outcome B :=
  match method with
  | Some f => Returns (f args)
  | None => Throws TypeError
  end.

(** [xs[i]]: [undefined] outside the array. *)
Definition array_get {A : Type} (xs : list A) (i : Z) : option A :=
  if (i <? 0)%Z then None else nth_error xs (Z.to_nat i).

(** ** Map

    A [Map] keeps its entries in insertion order; [set] on a key that is
    present replaces the value in place, on a new key it appends. *)
Definition JSMap (K V : Type) : Type := list (K * V).

Section JSMap.
Context {K V : Type}.
Variable same_key : K -> K -> bool.

Fixpoint map_get (k : K) (m : JSMap K V) : option V :=
  match m with
  | [] => None
  | (k', v) :: rest => if same_key k k' then Some v else map_get k rest
  end.

Fixpoint map_set (k : K) (v : V) (m : JSMap K V) : JSMap K V :=
  match m with
  | [] => [(k, v)]
  | (k', v') :: rest =>
      if same_key k k' then (k', v) :: rest else (k', v') :: map_set k v rest
  end.

Definition map_values (m : JSMap K V) : list V := map snd m.
Definition map_keys (m : JSMap K V) : list K := map fst m.
End JSMap.

End JS.

(** The pixels of an [ImageData]: [data] holds 4 bytes (RGBA) per pixel. *)
Record ImageData : Type := mkImageData {
  width : nat;
  height : nat;
  data : list byte
}.

(** A uniform white image: every channel of every pixel is 255. *)
Definition whiteImage (w h : nat) : ImageData :=
  {| width := w; height := h; data := repeat xff (4 * w * h) |}.

(** One pixel, opaque and fully transparent: the same colour, the alpha
    channel at 255 and at 0. *)
Definition opaquePixel : ImageData :=
  {| width := 1; height := 1; data := [x10; x80; xf0; xff] |}.

Definition clearPixel : ImageData :=
  {| width := 1; height := 1; data := [x10; x80; xf0; x00] |}.

(* ================================================================== *)
(** * DeepEngravingService.ts *)
(* ================================================================== *)

Module DeepEngravingService.
Import JS.

Record PowerRamp : Type := mkPowerRamp {
  initial : R;       (* Initial power percentage *)
  increment : R;     (* Power increment per pass *)
  max : R            (* Maximum power percentage *)
}.

Record SpeedProfile : Type := mkSpeedProfile {
  speed_initial : R; (* Initial speed (mm/s) *)
  reduction : R;     (* Speed reduction per pass *)
  min : R            (* Minimum speed (mm/s) *)
}.

Record BeamProfile : Type := mkBeamProfile {
  focusOffset : R;
  beamOverlap : R;
  crosshatchAngle : R
}.

Record VisualEffects : Type := mkVisualEffects {
  showLaserTrail : bool;
  trailColor : string;
  trailIntensity : R;
  pulseEffect : bool
}.

Record DeepEngravingSettings : Type := mkSettings {
  maxDepth : R;
  passLayers : R;
  powerRamp : PowerRamp;
  speedProfile : SpeedProfile;
  beamProfile : BeamProfile;
  visualEffects : VisualEffects
}.

Record PathPoint : Type := mkPathPoint {
  x : R; y : R; z : R; point_power : R
}.

Record Pass : Type := mkPass {
  paths : list PathPoint;
  depth : R;
  power : R;
  speed : R;
  pass_focusOffset : R
}.

(** The children of the preview's [THREE.Group]: the base mesh and one
    line per pass, given by its positions. *)
Inductive SceneObject : Type :=
| Mesh
| Line (positions : list R).

Record Engraving : Type := mkEngraving {
  passes : list Pass;
  totalTime : R;
  result_maxDepth : R;
  visualPreview : list SceneObject
}.

Definition generateEnhancedDepthMap (image : ImageData) : list (list R) := [].

Definition generateLayerPaths (depthMap : list (list R)) (depth power : R)
           (settings : DeepEngravingSettings) : list PathPoint := [].

Definition generateCrosshatchPaths (depthMap : list (list R)) (depth power : R)
           (settings : DeepEngravingSettings) : list PathPoint := [].

Definition calculateFocusOffset (depth : R) (settings : DeepEngravingSettings) : R :=
  depth * focusOffset (beamProfile settings).

Definition calculateTotalTime (passes : list Pass) : R := 0.

Definition generateVisualPreview (passes : list Pass)
           (settings : DeepEngravingSettings) : list SceneObject :=
  Mesh ::
  (if showLaserTrail (visualEffects settings)
   then map (fun pass =>
               Line (flat_map (fun p => [x p; y p; z p]) (paths pass)))
            passes
   else []).

(** The pass that one turn of the loop of [generateDeepEngraving] pushes. *)
Definition layerPass (depthMap : list (list R)) (settings : DeepEngravingSettings)
           (layer : nat) : Pass :=
  let currentDepth := (INR layer + 1) * (maxDepth settings / passLayers settings) in
  let layerPower :=
    Math_min (initial (powerRamp settings) + increment (powerRamp settings) * INR layer)
             (max (powerRamp settings)) in
  let speedReduction := Math_pow_nat (reduction (speedProfile settings)) layer in
  let currentSpeed :=
    Math_max (speed_initial (speedProfile settings) * speedReduction)
             (min (speedProfile settings)) in
  let layerPaths := generateLayerPaths depthMap currentDepth layerPower settings in
  let layerPaths :=
    if Rgt_dec (INR layer) (passLayers settings / 2)
    then layerPaths ++ generateCrosshatchPaths depthMap currentDepth layerPower settings
    else layerPaths in
  {| paths := layerPaths;
     depth := currentDepth;
     power := layerPower;
     speed := currentSpeed;
     pass_focusOffset := calculateFocusOffset currentDepth settings |}.

Definition generateDeepEngraving (image : ImageData)
           (settings : DeepEngravingSettings) : option Engraving :=
  let depthMap := generateEnhancedDepthMap image in
  match for_lt (fuel_for (passLayers settings)) 0 (passLayers settings)
               (fun layer passes => passes ++ [layerPass depthMap settings layer])
               [] with
  | None => None
  | Some passes =>
      Some {| passes := passes;
              totalTime := calculateTotalTime passes;
              result_maxDepth := maxDepth settings;
              visualPreview := generateVisualPreview passes settings |}
  end.

(** ** Inputs of the examples *)

(** Four layers to a depth of 2 mm, power ramping from 40 by 3 up to 95. *)
Definition scenarioSettings : DeepEngravingSettings :=
  {| maxDepth := 2;
     passLayers := 4;
     powerRamp := {| initial := 40; increment := 3; max := 95 |};
     speedProfile := {| speed_initial := 100; reduction := 0.9; min := 10 |};
     beamProfile := {| focusOffset := 0.1; beamOverlap := 50; crosshatchAngle := 45 |};
     visualEffects := {| showLaserTrail := true; trailColor := "#ff0000";
                         trailIntensity := 1; pulseEffect := false |} |}.

(** Two layers at a constant power of 80, with a negative initial speed. *)
Definition rampSettings : DeepEngravingSettings :=
  {| maxDepth := 1;
     passLayers := 2;
     powerRamp := {| initial := 80; increment := 0; max := 95 |};
     speedProfile := {| speed_initial := -10; reduction := 0.5; min := -100 |};
     beamProfile := {| focusOffset := 0; beamOverlap := 0; crosshatchAngle := 0 |};
     visualEffects := {| showLaserTrail := false; trailColor := "";
                         trailIntensity := 0; pulseEffect := false |} |}.

End DeepEngravingService.

(* ================================================================== *)
(** * LaserProfileService.ts *)
(* ================================================================== *)

Module LaserProfileService.
Import JS.

Inductive LaserType : Type := fiber | co2 | diode.
Inductive GasType : Type := air | nitrogen | oxygen.

Record AssistGas : Type := mkAssistGas {
  gas_type : GasType;
  pressure : R
}.

Record MopaSettings : Type := mkMopaSettings {
  pulseShapes : list string;
  burstMode : bool;
  burstSpacing : R
}.

Record LaserSettings : Type := mkLaserSettings {
  powerCurve : list R;
  speedCurve : list R;
  pulseFrequency : R;
  pulseWidth : R;
  assistGas : option AssistGas;
  mopaSettings : option MopaSettings
}.

Record LaserProfile : Type := mkLaserProfile {
  name : string;
  type : LaserType;
  power : R;
  wavelength : R;
  minPower : R;
  maxPower : R;
  focusHeight : R;
  beamDiameter : R;
  settings : LaserSettings
}.

Record MaterialSettings : Type := mkMaterialSettings {
  material_power : R;
  material_speed : R;
  material_passes : R;
  zOffset : R;
  material_assistGas : option AssistGas
}.

Record MaterialProfile : Type := mkMaterialProfile {
  material_name : string;
  material_type : string;
  thickness : R;
  material_settings : MaterialSettings
}.

(** [Array.from({ length: 256 }, (_, i) => i / 255)] *)
Definition linearCurve : list R := map (fun i => INR i / 255) (seq 0 256).

(** [Array.from({ length: 256 }, (_, i) => Math.pow(i / 255, 2))] *)
Definition squareCurve : list R :=
  map (fun i => Math_pow_nat (INR i / 255) 2) (seq 0 256).

Definition mopaShapes : list string :=
  ["0-25ns"; "0-50ns"; "0-200ns"; "0-500ns"]%string.

Definition seamann50 : LaserProfile :=
  {| name := "Seamann 50W Fiber"; type := fiber; power := 50; wavelength := 1064;
     minPower := 1; maxPower := 50; focusHeight := 0.12; beamDiameter := 0.05;
     settings :=
       {| powerCurve := linearCurve; speedCurve := squareCurve;
          pulseFrequency := 20000; pulseWidth := 0.05;
          assistGas := Some {| gas_type := nitrogen; pressure := 8 |};
          mopaSettings := None |} |}.

Definition raycus100 : LaserProfile :=
  {| name := "Raycus 100W Fiber"; type := fiber; power := 100; wavelength := 1064;
     minPower := 1; maxPower := 100; focusHeight := 0.15; beamDiameter := 0.05;
     settings :=
       {| powerCurve := linearCurve; speedCurve := squareCurve;
          pulseFrequency := 30000; pulseWidth := 0.04;
          assistGas := Some {| gas_type := nitrogen; pressure := 10 |};
          mopaSettings := None |} |}.

Definition jpt70 : LaserProfile :=
  {| name := "JPT 70W MOPA"; type := fiber; power := 70; wavelength := 1064;
     minPower := 1; maxPower := 70; focusHeight := 0.15; beamDiameter := 0.05;
     settings :=
       {| powerCurve := linearCurve; speedCurve := squareCurve;
          pulseFrequency := 50000; pulseWidth := 0.02;
          assistGas := Some {| gas_type := nitrogen; pressure := 10 |};
          mopaSettings :=
            Some {| pulseShapes := mopaShapes; burstMode := true;
                    burstSpacing := 0.001 |} |} |}.

Definition maxPhotonics120 : LaserProfile :=
  {| name := "MaxPhotonics 120W MOPA"; type := fiber; power := 120; wavelength := 1064;
     minPower := 1; maxPower := 120; focusHeight := 0.18; beamDiameter := 0.05;
     settings :=
       {| powerCurve := linearCurve; speedCurve := squareCurve;
          pulseFrequency := 60000; pulseWidth := 0.02;
          assistGas := Some {| gas_type := nitrogen; pressure := 12 |};
          mopaSettings :=
            Some {| pulseShapes := mopaShapes; burstMode := true;
                    burstSpacing := 0.001 |} |} |}.

Definition ipg150 : LaserProfile :=
  {| name := "IPG 150W Fiber"; type := fiber; power := 150; wavelength := 1064;
     minPower := 1; maxPower := 150; focusHeight := 0.2; beamDiameter := 0.05;
     settings :=
       {| powerCurve := linearCurve; speedCurve := squareCurve;
          pulseFrequency := 50000; pulseWidth := 0.03;
          assistGas := Some {| gas_type := nitrogen; pressure := 15 |};
          mopaSettings := None |} |}.

Definition nLight200 : LaserProfile :=
  {| name := "nLight 200W Fiber"; type := fiber; power := 200; wavelength := 1064;
     minPower := 1; maxPower := 200; focusHeight := 0.25; beamDiameter := 0.05;
     settings :=
       {| powerCurve := linearCurve; speedCurve := squareCurve;
          pulseFrequency := 70000; pulseWidth := 0.02;
          assistGas := Some {| gas_type := nitrogen; pressure := 18 |};
          mopaSettings := None |} |}.

Definition defaultProfiles : list LaserProfile :=
  [seamann50; raycus100; jpt70; maxPhotonics120; ipg150; nLight200].

(** The state of a [LaserProfileService]. *)
Record Service : Type := mkService {
  profiles : JSMap string LaserProfile;
  materialProfiles : JSMap string (list MaterialProfile)
}.

(** [constructor()] *)
Definition constructor : Service :=
  {| profiles :=
       fold_left (fun m profile => map_set String.eqb (name profile) profile m)
                 defaultProfiles [];
     materialProfiles := [] |}.

Definition getProfile (this : Service) (name : string) : option LaserProfile :=
  map_get String.eqb name (profiles this).

Record PowerOptions : Type := mkPowerOptions {
  contrast : R;
  brightness : R;
  gamma : R;
  opt_minPower : R;
  opt_maxPower : R
}.

(** [None] when the looked-up curve entry is [undefined] (the result is
    then NaN). *)
Definition calculatePowerForGrayscale (profile : LaserProfile) (grayscaleValue : R)
           (options : PowerOptions) : option R :=
  let adjusted := grayscaleValue in
  let adjusted := Math_pow adjusted (1 / gamma options) in
  let adjusted := adjusted * contrast options + brightness options in
  let adjusted := Math_max 0 (Math_min 1 adjusted) in
  let powerIndex :=
    Math_floor (adjusted * (INR (length (powerCurve (settings profile))) - 1)) in
  match array_get (powerCurve (settings profile)) powerIndex with
  | None => None
  | Some powerPercentage =>
      Some (opt_minPower options
            + (opt_maxPower options - opt_minPower options) * powerPercentage)
  end.

Inductive HeightCurve : Type := linear | exponential | logarithmic.

Record DepthOptions : Type := mkDepthOptions {
  levels : R;
  curve : HeightCurve;
  invert : bool
}.

Definition calculateDepthFromHeightmap (heightValue maxDepth : R)
           (options : DepthOptions) : R :=
  let depth := heightValue in
  let depth := if invert options then 1 - depth else depth in
  let depth :=
    match curve options with
    | exponential => Math_pow_nat depth 2
    | logarithmic => Math_log (depth * (Math_E - 1) + 1)
    | linear => depth
    end in
  let depth :=
    if Rgt_dec (levels options) 1
    then IZR (Math_round (depth * (levels options - 1))) / (levels options - 1)
    else depth in
  depth * maxDepth.

Record PowerMapOptions : Type := mkPowerMapOptions {
  pm_maxDepth : R;
  passes : R;
  baseSpeed : R;
  depthPerPass : R;
  powerAdjustment : R
}.

Record PowerPass : Type := mkPowerPass {
  passNumber : nat;
  powerMap : list (list R);
  speed : R;
  pass_zOffset : R
}.

(** The pass that one turn of the loop of [generatePowerMap] pushes. *)
Definition powerPass (heightmap : list (list R)) (profile : LaserProfile)
           (options : PowerMapOptions) (pass : nat) : PowerPass :=
  let targetDepth := (INR pass + 1) * depthPerPass options in
  let powerMap :=
    map (fun row =>
           map (fun heightValue =>
                  let requiredDepth := heightValue * pm_maxDepth options in
                  if Rgt_dec requiredDepth (targetDepth - depthPerPass options)
                  then
                    let powerPercentage :=
                      Math_min 1 ((requiredDepth - (targetDepth - depthPerPass options))
                                  / depthPerPass options) in
                    powerPercentage * maxPower profile * powerAdjustment options
                  else 0)
               row)
        heightmap in
  {| passNumber := pass + 1;
     powerMap := powerMap;
     speed := baseSpeed options * Math_pow_nat 0.9 pass;
     pass_zOffset := - targetDepth |}.

(** The passes of [generatePowerMap], where [depthPerPass] is not 0; at 0
    the quotients of the source are Infinity or NaN, and the lemmas on the
    count and on the powers carry [depthPerPass <> 0]. *)
Definition generatePowerMap (heightmap : list (list R)) (profile : LaserProfile)
           (options : PowerMapOptions) : option (list PowerPass) :=
  let maxPasses := Math_ceil (pm_maxDepth options / depthPerPass options) in
  let actualPasses := Math_min (IZR maxPasses) (passes options) in
  for_lt (fuel_for actualPasses) 0 actualPasses
         (fun pass acc => acc ++ [powerPass heightmap profile options pass])
         [].

Record Material : Type := mkMaterial {
  refractiveIndex : R;
  material_thickness : R
}.

Definition calculateFocalAdjustment (depth : R) (material : Material) : R :=
  let focalShift := depth * (1 - 1 / refractiveIndex material) in
  focalShift.

(** ** The power mapping as the specification words it

    Gamma, then contrast as [0.5 + (value - 0.5) (1 + contrast / 100)] and
    brightness as [value + brightness / 100], the clamp to [0, 1], the index
    [floor (value * 255)] and the rescaling into [minPower, maxPower]. *)
Definition powerFor_spec (profile : LaserProfile) (grayscaleValue : R)
           (options : PowerOptions) : option R :=
  let value := Math_pow grayscaleValue (1 / gamma options) in
  let value := 0.5 + (value - 0.5) * (1 + contrast options / 100) in
  let value := value + brightness options / 100 in
  let value := Math_max 0 (Math_min 1 value) in
  match array_get (powerCurve (settings profile)) (Math_floor (value * 255)) with
  | None => None
  | Some curveValue =>
      Some (opt_minPower options
            + (opt_maxPower options - opt_minPower options) * curveValue)
  end.

(** ** Inputs of the examples *)

Definition neutralOptions : PowerOptions :=
  {| contrast := 0; brightness := 0; gamma := 1; opt_minPower := 0; opt_maxPower := 100 |}.

Definition glass : Material :=
  {| refractiveIndex := 1.5; material_thickness := 3 |}.

Definition negativeIndexMaterial : Material :=
  {| refractiveIndex := -1; material_thickness := 3 |}.

(** At most 2 passes of 0.5 mm for a depth of 2 mm. *)
Definition twoPassOptions : PowerMapOptions :=
  {| pm_maxDepth := 2; passes := 2; baseSpeed := 100;
     depthPerPass := 0.5; powerAdjustment := 1 |}.

(** Three levels on the inverted exponential curve. *)
Definition threeLevels : DepthOptions :=
  {| levels := INR 3; curve := exponential; invert := true |}.

End LaserProfileService.

(* ================================================================== *)
(** * DepthMapService *)
(* ================================================================== *)

Module DepthMapService.
Import JS.

Inductive DepthCurve : Type := linear | exponential | logarithmic | custom.

Record DepthMapSettings : Type := mkDepthMapSettings {
  (* Base Settings *)
  contrast : R;              (* -100 to 100 *)
  brightness : R;            (* -100 to 100 *)
  gamma : R;                 (* 0.1 to 5.0 *)
  sharpness : R;             (* 0 to 100 *)
  (* Advanced Depth Control *)
  baseDepth : R;
  maxDepth : R;
  minDepth : R;
  depthCurve : DepthCurve;
  customCurve : option (list R);
  (* Multi-layer Processing *)
  layers : R;
  layerBlending : R;         (* 0 to 100 *)
  layerContrast : list R;
  (* Detail Enhancement *)
  detailBoost : R;           (* 0 to 100 *)
  microDetail : R;           (* 0 to 100 *)
  edgeEnhancement : R;       (* 0 to 100 *)
  (* Smoothing *)
  smoothing : R;             (* 0 to 100 *)
  adaptiveSmoothing : bool;
  preserveEdges : bool;
  (* Advanced Effects *)
  normalStrength : R;
  aoStrength : R;
  heightBlending : R
}.

(** A [Float32Array] is a list of numbers; [new Float32Array(n)] holds [n]
    zeros.  The buffers of the service are read inside their bounds (the
    loops run to the buffer's own length, and an [ImageData] holds 4 bytes
    per pixel), so a read is [nth] with the default 0. *)
Definition Float32Array (n : nat) : list R := repeat 0 n.

Definition byte_value (b : byte) : R := IZR (Z.of_N (Byte.to_N b)).

Definition applyContrastBrightness (value contrast brightness : R) : R :=
  (* Apply contrast *)
  let value := 0.5 + (value - 0.5) * (1 + contrast / 100) in
  (* Apply brightness *)
  let value := value + brightness / 100 in
  (* Clamp values *)
  Math_max 0 (Math_min 1 value).

(** The grayscale buffer, for a [gamma] above 0 (the settings take it from
    0.1 to 5.0) and an image that holds its [4 * width * height] bytes: at
    another [gamma] [Math.pow] can give Infinity or NaN, which the clamp
    passes on. *)
Definition convertToEnhancedGrayscale (imageData : ImageData)
           (settings : DepthMapSettings) : list R :=
  map (fun i =>
         let r := byte_value (nth (i * 4) (data imageData) x00) / 255 in
         let g := byte_value (nth (i * 4 + 1) (data imageData) x00) / 255 in
         let b := byte_value (nth (i * 4 + 2) (data imageData) x00) / 255 in
         let gray :=
           Math_pow (0.299 * r + 0.587 * g + 0.114 * b) (1 / gamma settings) in
         applyContrastBrightness gray (contrast settings) (brightness settings))
      (seq 0 (width imageData * height imageData)).

(** The index at which [while (i < curve.length && curve[i] < value) i++]
    stops, counted from [i]; [curve] is what is left of the array from [i]
    on. *)
Fixpoint scanCurve (value : R) (curve : list R) (i : nat) : nat :=
  match curve with
  | [] => i
  | c :: rest => if Rlt_dec c value then scanCurve value rest (S i) else i
  end.

(** [None] is [undefined]: [curve[0]] of an empty curve. *)
Definition interpolateCustomCurve (value : R) (curve : list R) : option R :=
  (* Find surrounding control points *)
  let i := scanCurve value curve 0 in
  if Nat.eqb i 0 then nth_error curve 0
  else if Nat.eqb i (length curve) then nth_error curve (length curve - 1)
  else
    (* Linear interpolation between control points *)
    match nth_error curve (i - 1), nth_error curve i with
    | Some lo, Some hi =>
        let t := (value - lo) / (hi - lo) in
        Some (lo + t * (hi - lo))
    | _, _ => None
    end.

Definition applyDepthCurve (value : R) (settings : DepthMapSettings) : option R :=
  match depthCurve settings with
  | exponential => Some (Math_pow_nat value 2)
  | logarithmic => Some (Math_log (value * (Math_E - 1) + 1))
  | custom =>
      match customCurve settings with
      | Some curve => interpolateCustomCurve value curve
      | None => Some value
      end
  | linear => Some value
  end.

Definition enhanceLocalContrast (value : R) (settings : DepthMapSettings) : R :=
  let contrast := contrast settings / 100 in
  (* Apply S-curve contrast enhancement *)
  let value := 0.5 + (value - 0.5) * (1 + contrast) in
  (* Preserve extreme values *)
  let value := if Rlt_dec value 0 then 0 else value in
  let value := if Rgt_dec value 1 then 1 else value in
  value.

(** [None] when the curve gives [undefined] (the pixel is then NaN). *)
Definition processPixelAtScale (grayscale : list R) (x y scale width height : nat)
           (settings : DepthMapSettings) : option R :=
  (* Gather samples within scale window *)
  let '(sum, count) :=
    for_range scale
      (fun dy =>
         for_range scale
           (fun dx '(sum, count) =>
              let sx := (x * scale + dx)%nat in
              let sy := (y * scale + dy)%nat in
              if (sx <? width)%nat && (sy <? height)%nat
              then (sum + nth (sy * width + sx) grayscale 0, S count)
              else (sum, count)))
      (0, 0%nat) in
  (* Apply scale-specific depth processing *)
  let value := sum / INR count in
  match applyDepthCurve value settings with
  | None => None
  | Some value => Some (enhanceLocalContrast value settings)
  end.

(** The body of [gaussianBlur] is empty: the output buffer keeps what it
    held. *)
Definition gaussianBlur (input output : list R) (width height : nat) (sigma : R)
  : list R := output.

(** The buffer [data] after [enhanceDetails]. *)
Definition enhanceDetails (data : list R) (width height : nat)
           (settings : DepthMapSettings) : list R :=
  let temp := Float32Array (length data) in
  (* Apply unsharp masking for detail enhancement *)
  let radius := Math_max 1 (IZR (Math_floor (INR width * 0.02))) in
  let sigma := radius / 3 in
  let amount := detailBoost settings / 100 in
  (* Gaussian blur *)
  let temp := gaussianBlur data temp width height sigma in
  (* Enhance details *)
  map (fun i =>
         let difference := nth i data 0 - nth i temp 0 in
         nth i data 0 + difference * amount)
      (seq 0 (length data)).

(** All the elements, when each is defined. *)
Fixpoint all_defined {A : Type} (xs : list (option A)) : option (list A) :=
  match xs with
  | [] => Some []
  | None :: _ => None
  | Some x :: rest =>
      match all_defined rest with
      | None => None
      | Some ys => Some (x :: ys)
      end
  end.

(** The buffer of one scale before the detail enhancement: the pixel at
    index [y * scaledWidth + x] is [processPixelAtScale ... x y ...]. *)
Definition scalePixels (grayscale : list R) (width height scale : nat)
           (settings : DepthMapSettings) : list (option R) :=
  let scaledWidth := (width / scale)%nat in
  let scaledHeight := (height / scale)%nat in
  flat_map (fun y =>
              map (fun x =>
                     processPixelAtScale grayscale x y scale width height settings)
                  (seq 0 scaledWidth))
           (seq 0 scaledHeight).

(** [None] when a pixel is not a number. *)
Definition processAtScale (grayscale : list R) (width height scale : nat)
           (settings : DepthMapSettings) : option (list R) :=
  let scaledWidth := (width / scale)%nat in
  let scaledHeight := (height / scale)%nat in
  match all_defined (scalePixels grayscale width height scale settings) with
  | None => None
  | Some processed =>
      (* Apply detail enhancement at current scale *)
      Some (enhanceDetails processed scaledWidth scaledHeight settings)
  end.

(** The bodies of [generateNormalMap] and [generateHeightMap] are empty: the
    buffers they are to fill keep their zeros. *)
Definition generateNormalMap (depthMap normalMap : list R) (width height : nat)
           (settings : DepthMapSettings) : list R := normalMap.

Definition generateHeightMap (depthMap normalMap heightMap : list R)
           (width height : nat) (settings : DepthMapSettings) : list R := heightMap.

Record DepthMaps : Type := mkDepthMaps {
  depthMap : list R;
  normalMap : list R;
  heightMap : list R
}.

(** [this.blendProcessedScales]: the class declares no method and no field
    of this name, and nothing assigns one, so the property is [undefined]. *)
Definition blendProcessedScales
  : option (list (option (list R)) * list R * nat * nat * DepthMapSettings -> list R) :=
  None.

(** What the promise of [generateEnhancedDepthMap] settles to: [Throws]
    when it is rejected.  A buffer of [processedScales] is [None] when one
    of its pixels is not a number. *)
Definition generateEnhancedDepthMap (imageData : ImageData)
           (settings : DepthMapSettings) : outcome DepthMaps :=
  let width := width imageData in
  let height := height imageData in
  let size := (width * height)%nat in
  (* Initialize output arrays *)
  let depthMap := Float32Array size in
  let normalMap := Float32Array (size * 3) in
  let heightMap := Float32Array size in
  (* Convert to grayscale with enhanced processing *)
  let grayscale := convertToEnhancedGrayscale imageData settings in
  (* Apply multi-scale processing *)
  let scales := [1; 2; 4; 8]%nat in
  let processedScales :=
    map (fun scale => processAtScale grayscale width height scale settings) scales in
  (* Blend scales with detail preservation *)
  bind (invoke blendProcessedScales
               (processedScales, depthMap, width, height, settings))
       (fun depthMap =>
  (* Generate normal map from enhanced depth *)
  let normalMap := generateNormalMap depthMap normalMap width height settings in
  (* Create height map with enhanced detail *)
  let heightMap :=
    generateHeightMap depthMap normalMap heightMap width height settings in
  Returns {| depthMap := depthMap; normalMap := normalMap; heightMap := heightMap |}).

(** ** Inputs of the examples *)

(** [settings] with its [depthCurve] replaced. *)
Definition withDepthCurve (c : DepthCurve) (s : DepthMapSettings) : DepthMapSettings :=
  {| contrast := contrast s; brightness := brightness s; gamma := gamma s;
     sharpness := sharpness s; baseDepth := baseDepth s; maxDepth := maxDepth s;
     minDepth := minDepth s; depthCurve := c; customCurve := customCurve s;
     layers := layers s; layerBlending := layerBlending s;
     layerContrast := layerContrast s; detailBoost := detailBoost s;
     microDetail := microDetail s; edgeEnhancement := edgeEnhancement s;
     smoothing := smoothing s; adaptiveSmoothing := adaptiveSmoothing s;
     preserveEdges := preserveEdges s; normalStrength := normalStrength s;
     aoStrength := aoStrength s; heightBlending := heightBlending s |}.

(** Neutral contrast, brightness and gamma, the linear curve, and the
    detail boost at its maximum of 100. *)
Definition boostSettings : DepthMapSettings :=
  {| contrast := 0; brightness := 0; gamma := 1; sharpness := 0;
     baseDepth := 1; maxDepth := 2; minDepth := 0;
     depthCurve := linear; customCurve := None;
     layers := 4; layerBlending := 50; layerContrast := [];
     detailBoost := 100; microDetail := 0; edgeEnhancement := 0;
     smoothing := 0; adaptiveSmoothing := false; preserveEdges := false;
     normalStrength := 1; aoStrength := 0; heightBlending := 0 |}.

(** The custom curve selected and no [customCurve] given. *)
Definition customUnset : DepthMapSettings := withDepthCurve custom boostSettings.

(** ** The window of a pixel

    The samples that [processPixelAtScale] reads for the pixel [(x, y)] of a
    scale buffer, row by row: the [scale] x [scale] block of the grayscale
    buffer at [(x * scale, y * scale)]. *)
Definition windowSamples (grayscale : list R) (x y scale width : nat) : list R :=
  flat_map (fun dy =>
              map (fun dx => nth ((y * scale + dy) * width + (x * scale + dx)) grayscale 0)
                  (seq 0 scale))
           (seq 0 scale).

End DepthMapService.

(* ================================================================== *)
(** * DepthMapService, the interpolation on IEEE doubles *)
(* ================================================================== *)

(** [interpolateCustomCurve] as JavaScript computes it: every number is a
    binary64 float, and every operation rounds to nearest. *)
Module DepthMapServiceDouble.
Import PrimFloat.

Fixpoint scanCurve (value : float) (curve : list float) (i : nat) : nat :=
  match curve with
  | [] => i
  | c :: rest => if ltb c value then scanCurve value rest (S i) else i
  end.

Definition interpolateCustomCurve (value : float) (curve : list float) : option float :=
  (* Find surrounding control points *)
  let i := scanCurve value curve 0 in
  if Nat.eqb i 0 then nth_error curve 0
  else if Nat.eqb i (length curve) then nth_error curve (length curve - 1)
  else
    (* Linear interpolation between control points *)
    match nth_error curve (i - 1), nth_error curve i with
    | Some lo, Some hi =>
        let t := div (sub value lo) (sub hi lo) in
        Some (add lo (mul t (sub hi lo)))
    | _, _ => None
    end.

(** The doubles that the literals [0.2] and [0.9] denote, and the double
    just below [0.9] (printed 0.8999999999999999). *)
Definition double_0_2 : float := 0x1.999999999999ap-3%float.
Definition double_0_9 : float := 0x1.ccccccccccccdp-1%float.
Definition double_below_0_9 : float := 0x1.cccccccccccccp-1%float.

End DepthMapServiceDouble.

(* ================================================================== *)
(** * LaserEngravingService.ts *)
(* ================================================================== *)

Module LaserEngravingService.
Import JS.

Inductive Curve : Type := linear | exponential | logarithmic | custom.

Record DepthMapSettings : Type := mkDepthMapSettings {
  baseDepth : R;
  maxDepth : R;
  minDepth : R;
  contrast : R;
  brightness : R;
  gamma : R;
  sharpness : R;
  smoothing : R;
  levels : R;
  invert : bool;
  curve : Curve;
  customCurve : option (list R)
}.

Inductive Strategy : Type := contour | spiral | hybrid | adaptive.
Inductive Direction : Type := bidirectional | unidirectional.
Inductive OptimizationLevel : Type := opt_speed | opt_quality | opt_balanced.

Record ToolpathSettings : Type := mkToolpathSettings {
  strategy : Strategy;
  direction : Direction;
  lineSpacing : R;
  angle : R;
  stepover : R;
  toolCompensation : R;
  smoothingFactor : R;
  optimizationLevel : OptimizationLevel;
  crosshatch : bool;
  crosshatchAngle : R;
  depthPerPass : R;
  maxPasses : R
}.

Record PathPoint : Type := mkPathPoint {
  x : R; y : R; z : R; power : R
}.

Record Toolpath : Type := mkToolpath {
  path : list PathPoint;
  pass : nat;
  depth : R
}.

Definition generateContourPath (heightmap : list (list R)) (depth : R)
           (settings : ToolpathSettings) : list PathPoint := [].

Definition generateSpiralPath (heightmap : list (list R)) (depth : R)
           (settings : ToolpathSettings) : list PathPoint := [].

Definition generateHybridPath (heightmap : list (list R)) (depth : R)
           (settings : ToolpathSettings) : list PathPoint := [].

Definition generateAdaptivePath (heightmap : list (list R)) (depth : R)
           (settings : ToolpathSettings) : list PathPoint := [].

Definition optimizePath (path : list PathPoint) (settings : ToolpathSettings)
  : list PathPoint := path.

Definition generateCrosshatchPath (heightmap : list (list R)) (depth : R)
           (settings : ToolpathSettings) : list PathPoint := [].

Definition mergePaths (path1 path2 : list PathPoint) : list PathPoint :=
  path1 ++ path2.

(** The toolpath that one turn of the loop of [generateOptimizedToolpaths]
    pushes. *)
Definition passToolpath (heightmap : list (list R)) (settings : ToolpathSettings)
           (pass : nat) : Toolpath :=
  let currentDepth := (INR pass + 1) * depthPerPass settings in
  let path :=
    match strategy settings with
    | contour => generateContourPath heightmap currentDepth settings
    | spiral => generateSpiralPath heightmap currentDepth settings
    | hybrid => generateHybridPath heightmap currentDepth settings
    | adaptive => generateAdaptivePath heightmap currentDepth settings
    end in
  (* Optimize path *)
  let path := optimizePath path settings in
  (* Add crosshatch if enabled *)
  let path :=
    if crosshatch settings
    then mergePaths path (generateCrosshatchPath heightmap currentDepth settings)
    else path in
  {| path := path; pass := pass + 1; depth := currentDepth |}.

(** The [passCount] of [generateOptimizedToolpaths]; [None] on a heightmap
    with no cell, where [Math.max()] is -Infinity.  It is the count of the
    source where [depthPerPass] is not 0; at 0 the quotient of the source is
    Infinity or NaN, and the lemmas carry [depthPerPass <> 0]. *)
Definition passCount (heightmap : list (list R)) (settings : ToolpathSettings)
  : option Z :=
  match Math_max_list (concat heightmap) with
  | None => None
  | Some greatest =>
      let totalDepth := greatest * maxPasses settings in
      Some (Math_ceil (totalDepth / depthPerPass settings))
  end.

Definition generateOptimizedToolpaths (heightmap : list (list R))
           (settings : ToolpathSettings) : option (list Toolpath) :=
  match passCount heightmap settings with
  | None => None
  | Some passCount =>
      Some (for_range (Z.to_nat passCount)
              (fun pass toolpaths => toolpaths ++ [passToolpath heightmap settings pass])
              [])
  end.

Definition interpolateCustomCurve (depth : R) (curve : list R) : R :=
  (* Implementation for custom curve interpolation *)
  depth.

Definition applyDepthCurve (depth : R) (settings : DepthMapSettings) : R :=
  match curve settings with
  | exponential => Math_pow_nat depth 2
  | logarithmic => Math_log (depth * (Math_E - 1) + 1)
  | custom =>
      match customCurve settings with
      | Some curve => interpolateCustomCurve depth curve
      | None => depth
      end
  | linear => depth
  end.

Definition enhanceHeightmapDetails (heightmap : list (list R))
           (settings : DepthMapSettings) : list (list R) :=
  (* Implementation for heightmap detail enhancement *)
  heightmap.

(** The cell of the heightmap at column [x] of row [y]. *)
Definition heightmapCell (imageData : ImageData) (settings : DepthMapSettings)
           (x y : nat) : R :=
  let i := ((y * width imageData + x) * 4)%nat in
  let depth :=
    (DepthMapService.byte_value (nth i (data imageData) x00)
     + DepthMapService.byte_value (nth (i + 1) (data imageData) x00)
     + DepthMapService.byte_value (nth (i + 2) (data imageData) x00))
    / (3 * 255) in
  (* Apply depth curve *)
  let depth := applyDepthCurve depth settings in
  (* Apply multi-level quantization if enabled *)
  let depth :=
    if Rgt_dec (levels settings) 1
    then IZR (Math_round (depth * (levels settings - 1))) / (levels settings - 1)
    else depth in
  (* Store normalized depth value *)
  if invert settings then 1 - depth else depth.

(** [generateEnhancedHeightmap], once [imageProcessor.processImage] has
    returned: the processed image it awaits is not used afterwards. *)
Definition generateEnhancedHeightmap (imageData : ImageData)
           (settings : DepthMapSettings) : list (list R) :=
  let heightmap :=
    map (fun y => map (fun x => heightmapCell imageData settings x y)
                      (seq 0 (width imageData)))
        (seq 0 (height imageData)) in
  (* Apply advanced smoothing and detail enhancement *)
  enhanceHeightmapDetails heightmap settings.

(** The heightmap and the toolpaths of [generate3DEngraving] (the preview
    is an empty [THREE.Mesh]). *)
Definition generate3DEngraving (imageData : ImageData)
           (depthSettings : DepthMapSettings) (toolpathSettings : ToolpathSettings)
  : option (list (list R) * list Toolpath) :=
  (* Generate enhanced heightmap *)
  let heightmap := generateEnhancedHeightmap imageData depthSettings in
  (* Create optimized toolpaths *)
  match generateOptimizedToolpaths heightmap toolpathSettings with
  | None => None
  | Some toolpaths => Some (heightmap, toolpaths)
  end.

(** ** Inputs of the examples *)

(** At most 2 passes of 0.5 mm. *)
Definition overrunSettings : ToolpathSettings :=
  {| strategy := contour; direction := bidirectional; lineSpacing := 0.1;
     angle := 0; stepover := 0.5; toolCompensation := 0; smoothingFactor := 0;
     optimizationLevel := opt_balanced; crosshatch := false; crosshatchAngle := 90;
     depthPerPass := 0.5; maxPasses := 2 |}.

(** The custom curve selected and no [customCurve] given. *)
Definition customUnset : DepthMapSettings :=
  {| baseDepth := 1; maxDepth := 2; minDepth := 0; contrast := 0; brightness := 0;
     gamma := 1; sharpness := 0; smoothing := 0; levels := 1; invert := false;
     curve := custom; customCurve := None |}.

(** Four levels on the inverted logarithmic curve. *)
Definition fourLevels : DepthMapSettings :=
  {| baseDepth := 1; maxDepth := 2; minDepth := 0; contrast := 0; brightness := 0;
     gamma := 1; sharpness := 0; smoothing := 0; levels := INR 4; invert := true;
     curve := logarithmic; customCurve := None |}.

(** At most 3 passes of 1 mm, with the crosshatch. *)
Definition deepPassSettings : ToolpathSettings :=
  {| strategy := spiral; direction := bidirectional; lineSpacing := 0.1;
     angle := 0; stepover := 0.5; toolCompensation := 0; smoothingFactor := 0;
     optimizationLevel := opt_balanced; crosshatch := true; crosshatchAngle := 90;
     depthPerPass := 1; maxPasses := 3 |}.

End LaserEngravingService.

(* ================================================================== *)
(** * ProfileManagerService.ts *)
(* ================================================================== *)

Module ProfileManagerService.
Import JS.
Local Open Scope string_scope.

(** The values [JSON.parse] returns.  An object is given by its properties,
    one per name. *)
#[warnings="-register-all"]
Inductive json : Type :=
| JNull
| JBool (b : bool)
| JNum (r : R)
| JStr (s : string)
| JArr (items : list json)
| JObj (fields : list (string * json)).

(** A value of the service: [None] is [undefined]. *)
Definition jsval : Type := option json.

Fixpoint lookup (key : string) (fields : list (string * json)) : jsval :=
  match fields with
  | [] => None
  | (k, v) :: rest => if String.eqb key k then Some v else lookup key rest
  end.

(** [o.key] on a value other than [null] and [undefined], for the keys the
    service reads ([type], [profile], [name]): an object gives its property,
    and a boolean, a number, a string or an array has no property of these
    names. *)
Definition member (o : json) (key : string) : jsval :=
  match o with
  | JObj fields => lookup key fields
  | _ => None
  end.

(** [v.key]: a TypeError on [null] and [undefined]. *)
Definition prop (v : jsval) (key : string) : outcome jsval :=
  match v with
  | None | Some JNull => Throws TypeError
  | Some o => Returns (member o key)
  end.

(** [v === s] for a string literal [s]. *)
Definition is_string (v : jsval) (s : string) : bool :=
  match v with
  | Some (JStr s') => String.eqb s' s
  | _ => false
  end.

(** The key comparison of [Map] (SameValueZero).  An object or an array is
    compared by reference: the key a call brings is never the object that
    an earlier call stored. *)
Definition same_value_zero (a b : jsval) : bool :=
  match a, b with
  | None, None => true
  | Some JNull, Some JNull => true
  | Some (JBool x), Some (JBool y) => Bool.eqb x y
  | Some (JNum x), Some (JNum y) => if Req_dec_T x y then true else false
  | Some (JStr x), Some (JStr y) => String.eqb x y
  | _, _ => false
  end.

(** The state of the [ProfileManagerService] instance. *)
Record Registry : Type := mkRegistry {
  printerProfiles : JSMap jsval jsval;
  laserProfiles : JSMap jsval jsval;
  materialProfiles : JSMap jsval (list jsval)
}.

(** The three fields as their initialisers leave them ([new Map()]). *)
Definition emptyRegistry : Registry :=
  {| printerProfiles := []; laserProfiles := []; materialProfiles := [] |}.

Definition addPrinterProfile (profile : jsval) (this : Registry) : outcome Registry :=
  bind (prop profile "name") (fun name =>
  Returns {| printerProfiles := map_set same_value_zero name profile (printerProfiles this);
             laserProfiles := laserProfiles this;
             materialProfiles := materialProfiles this |}).

Definition addLaserProfile (profile : jsval) (this : Registry) : outcome Registry :=
  bind (prop profile "name") (fun name =>
  Returns {| printerProfiles := printerProfiles this;
             laserProfiles := map_set same_value_zero name profile (laserProfiles this);
             materialProfiles := materialProfiles this |}).

Definition addMaterialProfile (profile : jsval) (this : Registry) : outcome Registry :=
  bind (prop profile "type") (fun type =>
  let existingProfiles :=
    match map_get same_value_zero type (materialProfiles this) with
    | Some existing => existing
    | None => []
    end in
  Returns {| printerProfiles := printerProfiles this;
             laserProfiles := laserProfiles this;
             materialProfiles :=
               map_set same_value_zero type (existingProfiles ++ [profile])%list
                       (materialProfiles this) |}).

Definition getPrinterProfile (this : Registry) (name : string) : jsval :=
  match map_get same_value_zero (Some (JStr name)) (printerProfiles this) with
  | Some profile => profile
  | None => None
  end.

Definition getLaserProfile (this : Registry) (name : string) : jsval :=
  match map_get same_value_zero (Some (JStr name)) (laserProfiles this) with
  | Some profile => profile
  | None => None
  end.

Definition getMaterialProfiles (this : Registry) (type : string) : list jsval :=
  match map_get same_value_zero (Some (JStr type)) (materialProfiles this) with
  | Some found => found
  | None => []
  end.

Definition getAllPrinterProfiles (this : Registry) : list jsval :=
  map_values (printerProfiles this).

Definition getAllLaserProfiles (this : Registry) : list jsval :=
  map_values (laserProfiles this).

Definition getAllMaterialTypes (this : Registry) : list jsval :=
  map_keys (materialProfiles this).

(** The body of the [try] block of [importProfile], from the outcome of
    [JSON.parse(profileData)]. *)
Definition importBody (parsed : outcome json) (this : Registry) : outcome Registry :=
  bind parsed (fun data =>
  bind (prop (Some data) "type") (fun type =>
  if is_string type "printer" then
    bind (prop (Some data) "profile") (fun profile => addPrinterProfile profile this)
  else if is_string type "laser" then
    bind (prop (Some data) "profile") (fun profile => addLaserProfile profile this)
  else if is_string type "material" then
    bind (prop (Some data) "profile") (fun profile => addMaterialProfile profile this)
  else Returns this)).

(** [importProfile(profileData)], given the outcome of
    [JSON.parse(profileData)]: the value the promise resolves to and the
    state it leaves.  The [catch] block logs the error and returns [false]. *)
Definition importProfile (parsed : outcome json) (this : Registry)
  : outcome (bool * Registry) :=
  match importBody parsed this with
  | Returns this' => Returns (true, this')
  | Throws _ => Returns (false, this)
  end.

Definition curveArray (f : nat -> R) : json :=
  JArr (map (fun i => JNum (f i)) (seq 0 256)).

Definition anycubicPhotonMonoX6K : json :=
  JObj [("name", JStr "Anycubic Photon Mono X 6K");
        ("type", JStr "MSLA");
        ("manufacturer", JStr "Anycubic");
        ("buildVolume", JObj [("x", JNum 197); ("y", JNum 122); ("z", JNum 245)]);
        ("resolution", JObj [("xy", JNum 0.034); ("z", JNum 0.01)]);
        ("settings",
         JObj [("screenResolution", JObj [("x", JNum 5760); ("y", JNum 3600)]);
               ("lightSource", JStr "Mono LCD");
               ("wavelength", JNum 405);
               ("normalExposure", JNum 2.5);
               ("baseExposure", JNum 30);
               ("baseLayers", JNum 6);
               ("liftDistance", JNum 6);
               ("liftSpeed", JNum 180);
               ("retractSpeed", JNum 240);
               ("antiAliasing", JNum 4)])].

Definition phrozenSonicMini8K : json :=
  JObj [("name", JStr "Phrozen Sonic Mini 8K");
        ("type", JStr "MSLA");
        ("manufacturer", JStr "Phrozen");
        ("buildVolume", JObj [("x", JNum 165); ("y", JNum 72); ("z", JNum 180)]);
        ("resolution", JObj [("xy", JNum 0.022); ("z", JNum 0.01)]);
        ("settings",
         JObj [("screenResolution", JObj [("x", JNum 7500); ("y", JNum 3240)]);
               ("lightSource", JStr "Mono LCD");
               ("wavelength", JNum 405);
               ("normalExposure", JNum 2.2);
               ("baseExposure", JNum 35);
               ("baseLayers", JNum 5);
               ("liftDistance", JNum 5);
               ("liftSpeed", JNum 150);
               ("retractSpeed", JNum 200);
               ("antiAliasing", JNum 8)])].

Definition nitrogenAt (pressure : R) : json :=
  JObj [("type", JStr "nitrogen"); ("pressure", JNum pressure)].

Definition raycus50 : json :=
  JObj [("name", JStr "Raycus 50W Fiber");
        ("type", JStr "fiber");
        ("power", JNum 50);
        ("wavelength", JNum 1064);
        ("minPower", JNum 1);
        ("maxPower", JNum 50);
        ("focusHeight", JNum 0.12);
        ("beamDiameter", JNum 0.05);
        ("settings",
         JObj [("powerCurve", curveArray (fun i => INR i / 255));
               ("speedCurve", curveArray (fun i => Math_pow_nat (INR i / 255) 2));
               ("pulseFrequency", JNum 30000);
               ("pulseWidth", JNum 0.04);
               ("assistGas", nitrogenAt 8)])].

Definition jpt70 : json :=
  JObj [("name", JStr "JPT 70W MOPA");
        ("type", JStr "fiber");
        ("power", JNum 70);
        ("wavelength", JNum 1064);
        ("minPower", JNum 1);
        ("maxPower", JNum 70);
        ("focusHeight", JNum 0.15);
        ("beamDiameter", JNum 0.05);
        ("settings",
         JObj [("powerCurve", curveArray (fun i => INR i / 255));
               ("speedCurve", curveArray (fun i => Math_pow_nat (INR i / 255) 2));
               ("pulseFrequency", JNum 50000);
               ("pulseWidth", JNum 0.02);
               ("mopaSettings",
                JObj [("pulseShapes",
                       JArr [JStr "0-25ns"; JStr "0-50ns"; JStr "0-200ns"; JStr "0-500ns"]);
                      ("burstMode", JBool true);
                      ("burstSpacing", JNum 0.001)]);
               ("assistGas", nitrogenAt 10)])].

Definition initializeDefaultProfiles (this : Registry) : outcome Registry :=
  bind (addPrinterProfile (Some anycubicPhotonMonoX6K) this) (fun this =>
  bind (addPrinterProfile (Some phrozenSonicMini8K) this) (fun this =>
  bind (addLaserProfile (Some raycus50) this) (fun this =>
  addLaserProfile (Some jpt70) this))).

(** [constructor()] *)
Definition constructor : outcome Registry := initializeDefaultProfiles emptyRegistry.

(** A call of one of the methods of the service that write to it. *)
Inductive Call : Type :=
| call_importProfile (parsed : outcome json)
| call_addPrinterProfile (profile : jsval)
| call_addLaserProfile (profile : jsval)
| call_addMaterialProfile (profile : jsval).

(** The state a call leaves: the one it returns, or the one it started
    from when it throws. *)
Definition stateAfter {A : Type} (this : Registry) (result : outcome A)
           (state : A -> Registry) : Registry :=
  match result with
  | Returns a => state a
  | Throws _ => this
  end.

Definition perform (this : Registry) (call : Call) : Registry :=
  match call with
  | call_importProfile parsed => stateAfter this (importProfile parsed this) snd
  | call_addPrinterProfile profile =>
      stateAfter this (addPrinterProfile profile this) (fun r => r)
  | call_addLaserProfile profile =>
      stateAfter this (addLaserProfile profile this) (fun r => r)
  | call_addMaterialProfile profile =>
      stateAfter this (addMaterialProfile profile this) (fun r => r)
  end.

(** The key under which a call stores a laser profile, when it stores one. *)
Definition laserKeyOf (call : Call) : option jsval :=
  match call with
  | call_addLaserProfile profile =>
      match prop profile "name" with
      | Returns name => Some name
      | Throws _ => None
      end
  | call_importProfile (Returns data) =>
      if is_string (member data "type") "laser"
      then match prop (member data "profile") "name" with
           | Returns name => Some name
           | Throws _ => None
           end
      else None
  | _ => None
  end.

(** [!v] is false: the values that count as true. *)
Definition truthy (v : jsval) : bool :=
  match v with
  | None => false
  | Some JNull => false
  | Some (JBool b) => b
  | Some (JNum r) => if Req_dec_T r 0 then false else true
  | Some (JStr s) => negb (String.eqb s "")
  | Some _ => true
  end.

Inductive ProfileKind : Type := printer | laser | material.

Definition kindName (kind : ProfileKind) : string :=
  match kind with
  | printer => "printer"
  | laser => "laser"
  | material => "material"
  end.

(** An array of the service as a value: an element that is [undefined] is
    written [null] by [JSON.stringify]. *)
Definition arrayValue (items : list jsval) : json :=
  JArr (map (fun item => match item with Some v => v | None => JNull end) items).

(** [exportProfile(profileName, type)]: the envelope whose JSON text it
    returns, with [timestamp] the text of [new Date().toISOString()]; or
    the message of the error it throws. *)
Definition exportProfile (timestamp : string) (profileName : string)
           (type : ProfileKind) (this : Registry) : string + json :=
  let profile : jsval :=
    match type with
    | printer =>
        match map_get same_value_zero (Some (JStr profileName)) (printerProfiles this) with
        | Some profile => profile
        | None => None
        end
    | laser =>
        match map_get same_value_zero (Some (JStr profileName)) (laserProfiles this) with
        | Some profile => profile
        | None => None
        end
    | material =>
        match map_get same_value_zero (Some (JStr profileName)) (materialProfiles this) with
        | Some profiles => Some (arrayValue profiles)
        | None => None
        end
    end in
  match profile with
  | Some value =>
      if truthy profile
      then inr (JObj [("type", JStr (kindName type));
                      ("profile", value);
                      ("version", JStr "1.0");
                      ("timestamp", JStr timestamp)])
      else inl ("Profile not found: " ++ profileName)
  | None => inl ("Profile not found: " ++ profileName)
  end.

(** The calls of [initializeDefaultProfiles]. *)
Definition defaultCalls : list Call :=
  [call_addPrinterProfile (Some anycubicPhotonMonoX6K);
   call_addPrinterProfile (Some phrozenSonicMini8K);
   call_addLaserProfile (Some raycus50);
   call_addLaserProfile (Some jpt70)].

(** ** Inputs of the examples *)

Definition customLaser : json :=
  JObj [("name", JStr "Bench 20W Diode"); ("type", JStr "diode"); ("power", JNum 20)].

(** An envelope whose [type] is none of printer, laser and material. *)
Definition resinEnvelope : json :=
  JObj [("type", JStr "resin"); ("profile", customLaser)].

(** A material profile, and a registry that lists it. *)
Definition oak : json :=
  JObj [("name", JStr "Oak 3mm"); ("type", JStr "wood"); ("thickness", JNum 3)].

Definition woodRegistry : Registry :=
  {| printerProfiles := []; laserProfiles := [];
     materialProfiles := [(Some (JStr "wood"), [Some oak])] |}.

(** ** The envelope and the keys of the registry *)

(** The object whose JSON text [exportProfile] returns. *)
Definition envelope (kind : ProfileKind) (profile : json) (timestamp : string) : json :=
  JObj [("type", JStr (kindName kind));
        ("profile", profile);
        ("version", JStr "1.0");
        ("timestamp", JStr timestamp)].

(** Every entry of a [Map] of profiles is stored under the [name] of its
    profile. *)
Definition keyed_by_name (m : JSMap jsval jsval) : Prop :=
  Forall (fun entry => prop (snd entry) "name" = Returns (fst entry)) m.

(** Every material profile is listed under its [type]. *)
Definition listed_by_type (m : JSMap jsval (list jsval)) : Prop :=
  Forall (fun entry =>
            Forall (fun profile => prop profile "type" = Returns (fst entry))
                   (snd entry)) m.

Definition well_keyed (this : Registry) : Prop :=
  keyed_by_name (printerProfiles this) /\
  keyed_by_name (laserProfiles this) /\
  listed_by_type (materialProfiles this).

End ProfileManagerService.

(* ================================================================== *)
(** * DependencyValidationService (second part of DeepEngravingService.ts) *)
(* ================================================================== *)

Module DependencyValidationService.
Local Open Scope string_scope.

Inductive ValidationMode : Type := strict | auto_fix | post_review.

(** [s.includes(searchString)]: [searchString] occurs in [s]. *)
Fixpoint includes (s searchString : string) : bool :=
  if String.prefix searchString s then true
  else match s with
       | EmptyString => false
       | String _ rest => includes rest searchString
       end.

(** A value that is thrown: an [Error] with its message, or another value. *)
Inductive Thrown : Type :=
| thrown_Error (message : string)
| thrown_value.

Record Validation : Type := mkValidation {
  valid : bool;
  errors : list string;
  fixes : option (list string)
}.

(** [`${pkg}`]: the text of a capture group, [undefined] when there is no
    match. *)
Definition text_of (pkg : option string) : string :=
  match pkg with
  | Some p => p
  | None => "undefined"
  end.

(** [if (pkg)]: a capture group that is there and not empty. *)
Definition present (pkg : option string) : option string :=
  match pkg with
  | Some "" => None
  | other => other
  end.

Section Platform.

(** What the process acts on: the installed packages and whatever else
    [npm] reads and writes. *)
Variable World : Type.

(** [await execAsync(command)]: whether it resolves, and the state it
    leaves. *)
Variable execAsync : string -> World -> bool * World.

(** [error.match(/missing: ([^@\s]+)/)?.[1]] and
    [error.match(/peer dep missing: ([^@\s]+)/)?.[1]]: the first group of
    the match of the regular expression, [None] when there is none. *)
Variable missing_group : string -> option string.
Variable peer_group : string -> option string.

(** One turn of the loop of [autoFixDependencies]. *)
Definition fixError (state : list string * World) (error : string)
  : list string * World :=
  let '(fixes, world) := state in
  if includes error "missing:" then
    match present (missing_group error) with
    | Some pkg =>
        let '(installed, world) := execAsync ("npm install " ++ pkg) world in
        if installed
        then (app fixes ["Installed missing package: " ++ pkg], world)
        else (app fixes ["Failed to install " ++ pkg], world)
    | None => (fixes, world)
    end
  else if includes error "peer dep missing:" then
    match present (peer_group error) with
    | Some pkg =>
        let '(installed, world) := execAsync ("npm install " ++ pkg) world in
        if installed
        then (app fixes ["Installed peer dependency: " ++ pkg], world)
        else (app fixes ["Failed to install peer dependency " ++ pkg], world)
    | None => (fixes, world)
    end
  else (fixes, world).

Definition autoFixDependencies (errors : list string) (world : World)
  : list string * World :=
  fold_left fixError errors ([], world).

Definition suggestFixes (errors : list string) : list string :=
  map (fun error =>
         if includes error "missing:" then
           "Run: npm install " ++ text_of (missing_group error)
         else if includes error "peer dep missing:" then
           "Run: npm install " ++ text_of (peer_group error)
         else "Manual review needed: " ++ error)
      errors.

(** [validateDependencies()], from the outcome of its first three
    statements: the errors that [findDependencyErrors] found in the output
    of [npm ls --json] (strings, as it declares), or the value that one of
    them threw; [world] is the state they leave. *)
Definition validateDependencies (mode : ValidationMode)
           (found : Thrown + list string) (world : World) : Validation * World :=
  match found with
  | inr errors =>
      if (length errors =? 0)%nat
      then ({| valid := true; errors := []; fixes := None |}, world)
      else
        match mode with
        | strict => ({| valid := false; errors := errors; fixes := None |}, world)
        | auto_fix =>
            let '(fixes, world) := autoFixDependencies errors world in
            ({| valid := true; errors := errors; fixes := Some fixes |}, world)
        | post_review =>
            ({| valid := false; errors := errors;
                fixes := Some (suggestFixes errors) |}, world)
        end
  | inl error =>
      ({| valid := false;
          errors := [match error with
                     | thrown_Error message => message
                     | thrown_value => "Unknown error"
                     end];
          fixes := None |}, world)
  end.

End Platform.

(** ** The regular expressions

    A string is a sequence of code units below 256.  Among them [\s]
    matches the tab, the line feed, the vertical tab, the form feed, the
    carriage return, the space and the no-break space. *)
Definition is_space (c : Ascii.ascii) : bool :=
  let n := Ascii.N_of_ascii c in
  ((9 <=? n) && (n <=? 13) || (n =? 32) || (n =? 160))%N.

(** [[^@\s]]: [@] is the code unit 64. *)
Definition token_char (c : Ascii.ascii) : bool :=
  negb (Ascii.N_of_ascii c =? 64)%N && negb (is_space c).

(** The longest prefix of [s] that [[^@\s]*] matches. *)
Fixpoint token (s : string) : string :=
  match s with
  | EmptyString => EmptyString
  | String c rest => if token_char c then String c (token rest) else EmptyString
  end.

(** What follows [literal] at the start of [s]. *)
Fixpoint after (literal s : string) : option string :=
  match literal, s with
  | EmptyString, _ => Some s
  | String a literal, String b s => if Ascii.eqb a b then after literal s else None
  | String _ _, EmptyString => None
  end.

(** The match of [literal([^@\s]+)] at the start of [s]: its group. *)
Definition group_here (literal s : string) : option string :=
  match after literal s with
  | Some rest =>
      match token rest with
      | EmptyString => None
      | found => Some found
      end
  | None => None
  end.

(** [s.match(/literal([^@\s]+)/)?.[1]]: the group of the leftmost match. *)
Fixpoint first_group (literal s : string) : option string :=
  match group_here literal s with
  | Some found => Some found
  | None =>
      match s with
      | EmptyString => None
      | String _ rest => first_group literal rest
      end
  end.

(** [error.match(/missing: ([^@\s]+)/)?.[1]] *)
Definition missing_match : string -> option string := first_group "missing: ".

(** [error.match(/peer dep missing: ([^@\s]+)/)?.[1]] *)
Definition peer_match : string -> option string := first_group "peer dep missing: ".

(** Every character of [s] is one that [[^@\s]] matches. *)
Fixpoint all_token (s : string) : bool :=
  match s with
  | EmptyString => true
  | String c rest => token_char c && all_token rest
  end.

(** A state with nothing in it, where every command fails and no pattern
    matches. *)
Definition offline (command : string) (world : unit) : bool * unit := (false, world).
Definition no_group (error : string) : option string := None.

(** An error that [autoFixDependencies] acts on. *)
Definition fixable (missing_group : string -> option string) (error : string) : bool :=
  includes error "missing:"
  && match present (missing_group error) with Some _ => true | None => false end.

End DependencyValidationService.

(* ================================================================== *)
(** * Facts of the platform *)
(* ================================================================== *)

(** Case analysis on every [Math.min] and [Math.max] of the goal. *)
Ltac solve_minmax :=
  unfold JS.Math_min, JS.Math_max, Rmin, Rmax in *;
  repeat match goal with
         | |- context [Rle_dec ?a ?b] => destruct (Rle_dec a b)
         | H : context [Rle_dec ?a ?b] |- _ => destruct (Rle_dec a b)
         end;
  simpl in *; try lra.

(** Case analysis on every comparison of the goal. *)
Ltac solve_comparisons :=
  repeat match goal with
         | |- context [Rlt_dec ?a ?b] => destruct (Rlt_dec a b)
         | |- context [Rgt_dec ?a ?b] => destruct (Rgt_dec a b)
         end;
  try lra.

Section Loops.
Import JS.
Context {S : Type}.
Variables (bound : R) (body : nat -> S -> S).

(** A loop that returns has run its body on a segment of the naturals, all
    below the bound, and stopped at the first index that is not. *)
Lemma for_lt_returns_fold (fuel i : nat) (st res : S) :
  for_lt fuel i bound body st = Some res ->
  exists n : nat,
    res = fold_left (fun s k => body k s) (seq i n) st /\
    (forall k, (i <= k < i + n)%nat -> INR k < bound) /\
    ~ INR (i + n) < bound.
Proof.
  revert i st. induction fuel as [|fuel IH]; intros i st H; simpl in H.
  - discriminate.
  - destruct (Rlt_dec (INR i) bound) as [Hlt|Hge].
    + destruct (IH _ _ H) as (n & Hres & Hbelow & Hstop).
      exists (Datatypes.S n). simpl. split; [exact Hres|]. split.
      * intros k Hk. destruct (Nat.eq_dec k i) as [->|Hne]; [exact Hlt|].
        apply Hbelow. lia.
      * replace (i + Datatypes.S n)%nat with (Datatypes.S i + n)%nat by lia.
        exact Hstop.
    + injection H as <-. exists 0%nat. simpl. split; [reflexivity|]. split.
      * intros k Hk. lia.
      * rewrite Nat.add_0_r. exact Hge.
Qed.

Lemma below_bound_lt_up (i : nat) : INR i < bound -> (i < Z.to_nat (up bound))%nat.
Proof.
  intros Hlt. destruct (archimed bound) as [Hup _].
  assert (Hz : (Z.of_nat i < up bound)%Z).
  { apply lt_IZR. rewrite <- INR_IZR_INZ. lra. }
  lia.
Qed.

Lemma for_lt_enough_fuel (fuel i : nat) (st : S) :
  (Z.to_nat (up bound) < i + fuel)%nat -> (0 < fuel)%nat ->
  exists res, for_lt fuel i bound body st = Some res.
Proof.
  revert i st. induction fuel as [|fuel IH]; intros i st Hfuel Hpos; [lia|].
  simpl. destruct (Rlt_dec (INR i) bound) as [Hlt|Hge].
  - apply below_bound_lt_up in Hlt. apply IH; lia.
  - eexists; reflexivity.
Qed.

(** With [fuel_for bound] the loop from 0 always finishes. *)
Lemma for_lt_total (st : S) :
  exists res, for_lt (fuel_for bound) 0 bound body st = Some res.
Proof. apply for_lt_enough_fuel; unfold fuel_for; lia. Qed.

End Loops.

Section PlatformFacts.
Import JS.

(** A loop to a natural bound [N] runs its body on 0, ..., N - 1. *)
Lemma for_lt_nat_bound {S : Type} (N : nat) (body : nat -> S -> S) (st : S) :
  for_lt (fuel_for (INR N)) 0 (INR N) body st
  = Some (fold_left (fun s k => body k s) (seq 0 N) st).
Proof.
  destruct (for_lt_total (INR N) body st) as [res Hres].
  rewrite Hres.
  destruct (for_lt_returns_fold _ _ _ _ _ _ Hres) as (n & -> & Hbelow & Hstop).
  simpl in Hstop.
  assert (n = N) as ->; [|reflexivity].
  destruct (Nat.lt_trichotomy n N) as [Hlt|[Heq|Hgt]]; [|exact Heq|].
  - exfalso. apply Hstop. apply lt_INR. exact Hlt.
  - exfalso. assert (H : INR N < INR N) by (apply Hbelow; lia). lra.
Qed.

Lemma fold_left_push_map {A B : Type} (f : A -> B) (l : list A) (acc : list B) :
  fold_left (fun s k => s ++ [f k]) l acc = acc ++ map f l.
Proof.
  revert acc. induction l as [|a l IH]; intros acc; simpl.
  - now rewrite app_nil_r.
  - rewrite IH, <- app_assoc. reflexivity.
Qed.

Lemma nth_error_map_seq {A : Type} (f : nat -> A) (n p : nat) :
  (p < n)%nat -> nth_error (map f (seq 0 n)) p = Some (f p).
Proof.
  intros Hp. rewrite nth_error_map, nth_error_seq.
  destruct (Nat.ltb_spec p n); [reflexivity|lia].
Qed.

Lemma nth_error_map_seq_inv {A : Type} (f : nat -> A) (n p : nat) (a : A) :
  nth_error (map f (seq 0 n)) p = Some a -> (p < n)%nat /\ a = f p.
Proof.
  intros H. assert (Hp : (p < n)%nat).
  { assert (Hs : nth_error (map f (seq 0 n)) p <> None) by congruence.
    apply nth_error_Some in Hs. now rewrite length_map, length_seq in Hs. }
  rewrite nth_error_map_seq in H by exact Hp. injection H as <-. auto.
Qed.

Lemma map_nth_seq {A : Type} (f : A -> A) (l : list A) (d : A) :
  map (fun i => f (nth i l d)) (seq 0 (length l)) = map f l.
Proof.
  induction l as [|a l IH]; simpl; [reflexivity|].
  f_equal. rewrite <- seq_shift, map_map. exact IH.
Qed.

Lemma Math_pow_exponent_1 (x : R) : 0 <= x -> Math_pow x 1 = x.
Proof.
  intros Hx. unfold Math_pow.
  destruct (Req_dec_T x 0) as [->|Hne].
  - destruct (Req_dec_T 1 0); [lra|reflexivity].
  - apply Rpower_1. lra.
Qed.

(** A power of a number of [0, 1] at a positive exponent stays in [0, 1]. *)
Lemma Math_pow_unit (x y : R) : 0 <= x <= 1 -> 0 < y -> 0 <= Math_pow x y <= 1.
Proof.
  intros Hx Hy. unfold Math_pow.
  destruct (Req_dec_T x 0) as [->|Hne].
  - destruct (Req_dec_T y 0); lra.
  - unfold Rpower. split; [left; apply exp_pos|].
    assert (Hln : ln x <= 0).
    { rewrite <- ln_1. destruct (Req_dec_T x 1) as [->|Hx1]; [lra|].
      left. apply ln_increasing; lra. }
    assert (Hprod : y * ln x <= 0) by nra.
    rewrite <- exp_0. destruct Hprod as [Hlt | Heq]; [|rewrite Heq; lra].
    left. now apply exp_increasing.
Qed.

Lemma Math_floor_integer (z : Z) : Math_floor (IZR z) = z.
Proof. unfold Math_floor. symmetry. apply Int_part_spec. lra. Qed.

Lemma Math_ceil_integer (z : Z) : Math_ceil (IZR z) = z.
Proof.
  unfold Math_ceil. rewrite <- opp_IZR.
  change (Int_part (IZR (- z))) with (Math_floor (IZR (- z))).
  rewrite Math_floor_integer. lia.
Qed.

Lemma Math_floor_bounds (x : R) : IZR (Math_floor x) <= x < IZR (Math_floor x) + 1.
Proof. unfold Math_floor. destruct (base_Int_part x). lra. Qed.

Lemma clamp_unit (x : R) : 0 <= Math_max 0 (Math_min 1 x) <= 1.
Proof. solve_minmax. Qed.

Lemma pow_reduction_decreasing (r : R) (p q : nat) :
  0 < r <= 1 -> (p <= q)%nat -> r ^ q <= r ^ p.
Proof.
  intros Hr Hpq. induction Hpq as [|q Hpq IH]; [lra|].
  simpl. assert (0 < r ^ q) by (apply pow_lt; lra). nra.
Qed.

Lemma INR_256 : INR 256 = 256.
Proof. rewrite INR_IZR_INZ. reflexivity. Qed.

End PlatformFacts.

Section MapFacts.
Import JS.
Context {K V : Type}.
Variable same_key : K -> K -> bool.
Hypothesis same_key_eq : forall a b : K, same_key a b = true -> a = b.

Lemma map_get_set_same (k : K) (v : V) (m : JSMap K V) :
  same_key k k = true -> map_get same_key k (map_set same_key k v m) = Some v.
Proof.
  intros Hrefl. induction m as [|[k' v'] rest IH]; simpl.
  - now rewrite Hrefl.
  - destruct (same_key k k') eqn:E; simpl; rewrite E; [reflexivity|exact IH].
Qed.

Lemma map_get_set_other (k k' : K) (v : V) (m : JSMap K V) :
  same_key k k' = false ->
  map_get same_key k (map_set same_key k' v m) = map_get same_key k m.
Proof.
  intros Hdiff. induction m as [|[k'' v''] rest IH]; simpl.
  - now rewrite Hdiff.
  - destruct (same_key k' k'') eqn:E; simpl.
    + apply same_key_eq in E. subst k''. now rewrite Hdiff.
    + destruct (same_key k k''); [reflexivity|exact IH].
Qed.

Lemma map_get_set_cases (k k' : K) (v : V) (m : JSMap K V) :
  map_get same_key k (map_set same_key k' v m)
  = if same_key k k' then Some v else map_get same_key k m.
Proof.
  destruct (same_key k k') eqn:E.
  - pose proof (same_key_eq _ _ E) as <-. now apply map_get_set_same.
  - now apply map_get_set_other.
Qed.

End MapFacts.

(* ================================================================== *)
(** * Deep engraving: the passes and their ramps *)
(* ================================================================== *)

Section DeepEngravingFacts.
Import JS DeepEngravingService.

(** The loop always finishes, and the passes are the [layerPass] of the
    layers below [passLayers], in order. *)
Lemma generateDeepEngraving_passes (image : ImageData) (settings : DeepEngravingSettings) :
  exists (e : Engraving) (n : nat),
    generateDeepEngraving image settings = Some e /\
    passes e = map (layerPass (generateEnhancedDepthMap image) settings) (seq 0 n) /\
    (forall k, (k < n)%nat -> INR k < passLayers settings) /\
    ~ INR n < passLayers settings.
Proof.
  unfold generateDeepEngraving.
  destruct (for_lt_total (passLayers settings)
              (fun layer passes =>
                 passes ++ [layerPass (generateEnhancedDepthMap image) settings layer])
              []) as [res Hres].
  rewrite Hres.
  destruct (for_lt_returns_fold _ _ _ _ _ _ Hres) as (n & -> & Hbelow & Hstop).
  eexists; exists n. split; [reflexivity|]. simpl.
  rewrite fold_left_push_map. simpl. repeat split; auto.
  intros k Hk. apply Hbelow. lia.
Qed.

Lemma generateDeepEngraving_nat_layers (image : ImageData)
      (settings : DeepEngravingSettings) (N : nat) :
  passLayers settings = INR N ->
  exists e, generateDeepEngraving image settings = Some e /\
            passes e = map (layerPass (generateEnhancedDepthMap image) settings) (seq 0 N).
Proof.
  intros HN. unfold generateDeepEngraving. rewrite HN, for_lt_nat_bound.
  eexists. split; [reflexivity|]. simpl. now rewrite fold_left_push_map.
Qed.

Lemma layerPass_depth dm settings layer :
  depth (layerPass dm settings layer)
  = (INR layer + 1) * maxDepth settings / passLayers settings.
Proof. unfold layerPass; simpl. unfold Rdiv. ring. Qed.

Lemma layerPass_power dm settings layer :
  power (layerPass dm settings layer)
  = Rmin (initial (powerRamp settings) + increment (powerRamp settings) * INR layer)
         (max (powerRamp settings)).
Proof. reflexivity. Qed.

Lemma layerPass_speed dm settings layer :
  speed (layerPass dm settings layer)
  = Rmax (speed_initial (speedProfile settings) * reduction (speedProfile settings) ^ layer)
         (min (speedProfile settings)).
Proof. reflexivity. Qed.

(** C1.  With [passLayers = N >= 1], [generateDeepEngraving] returns exactly
    [N] passes; the pass at index [p] has depth
    [(p + 1) * maxDepth / passLayers], so the last one has depth [maxDepth].
    On a 4x4 white image with [maxDepth = 2], [passLayers = 4] and the power
    ramp 40, +3, at most 95, the powers are 40, 43, 46, 49 and the depths
    0.5, 1, 1.5, 2. *)
Theorem generateDeepEngraving_pass_count_and_depth :
  (forall (image : ImageData) (settings : DeepEngravingSettings) (N : nat),
      (1 <= N)%nat ->
      passLayers settings = INR N ->
      exists e : Engraving,
        generateDeepEngraving image settings = Some e /\
        length (passes e) = N /\
        (forall p : nat, (p < N)%nat ->
           exists pass, nth_error (passes e) p = Some pass /\
                        depth pass = (INR p + 1) * maxDepth settings / passLayers settings) /\
        (exists final, nth_error (passes e) (N - 1) = Some final /\
                       depth final = maxDepth settings))
  /\
  (forall settings : DeepEngravingSettings,
      maxDepth settings = 2 ->
      passLayers settings = 4 ->
      powerRamp settings = {| initial := 40; increment := 3; max := 95 |} ->
      exists e : Engraving,
        generateDeepEngraving (whiteImage 4 4) settings = Some e /\
        map power (passes e) = [40; 43; 46; 49] /\
        map depth (passes e) = [0.5; 1; 1.5; 2]).
Proof.
  split.
  - intros image settings N HN HL.
    destruct (generateDeepEngraving_nat_layers image settings N HL) as (e & He & Hp).
    exists e. split; [exact He|]. rewrite Hp. split.
    + now rewrite length_map, length_seq.
    + split.
      * intros p Hlt. eexists. split; [apply nth_error_map_seq; exact Hlt|].
        apply layerPass_depth.
      * eexists. split; [apply nth_error_map_seq; lia|].
        rewrite layerPass_depth, HL.
        replace (INR (N - 1) + 1) with (INR N).
        -- field. apply not_0_INR. lia.
        -- rewrite minus_INR by lia. simpl. ring.
  - intros settings HD HL HR.
    assert (HL4 : passLayers settings = INR 4) by (rewrite HL; simpl; lra).
    destruct (generateDeepEngraving_nat_layers (whiteImage 4 4) settings 4 HL4)
      as (e & He & Hp).
    exists e. split; [exact He|]. rewrite Hp. cbn [seq map]. split.
    + rewrite !layerPass_power, HR. cbn [initial increment max INR].
      repeat (apply (f_equal2 cons); [solve_minmax|]). reflexivity.
    + rewrite !layerPass_depth, HD, HL. cbn [INR].
      repeat (apply (f_equal2 cons); [lra|]). reflexivity.
Qed.

Lemma generateDeepEngraving_pass_count_and_depth_witness :
  (exists e : Engraving,
      generateDeepEngraving (whiteImage 4 4) scenarioSettings = Some e /\
      length (passes e) = 4%nat /\
      (forall p : nat, (p < 4)%nat ->
         exists pass, nth_error (passes e) p = Some pass /\
                      depth pass = (INR p + 1) * maxDepth scenarioSettings
                                   / passLayers scenarioSettings) /\
      (exists final, nth_error (passes e) (4 - 1) = Some final /\
                     depth final = maxDepth scenarioSettings))
  /\
  (exists e : Engraving,
      generateDeepEngraving (whiteImage 4 4) scenarioSettings = Some e /\
      map power (passes e) = [40; 43; 46; 49] /\
      map depth (passes e) = [0.5; 1; 1.5; 2]).
Proof.
  split.
  - apply (proj1 generateDeepEngraving_pass_count_and_depth
             (whiteImage 4 4) scenarioSettings 4%nat).
    + lia.
    + simpl. lra.
  - apply (proj2 generateDeepEngraving_pass_count_and_depth scenarioSettings);
      reflexivity.
Defined.

(** C2, as stated, fails.  With a constant power of 80 the first pass is
    commanded above the 50 of the Seamann 50W profile that the service's
    [LaserProfileService] holds, and with the initial speed -10 the speed
    rises from -10 to -5. *)
Lemma generateDeepEngraving_ramps_counterexample :
  exists e : Engraving,
    generateDeepEngraving (whiteImage 4 4) rampSettings = Some e /\
    map power (passes e) = [80; 80] /\
    Rmin (max (powerRamp rampSettings))
         (LaserProfileService.maxPower LaserProfileService.seamann50) < 80 /\
    0 <= increment (powerRamp rampSettings) /\
    0 < reduction (speedProfile rampSettings) <= 1 /\
    map speed (passes e) = [-10; -5] /\
    -10 < -5.
Proof.
  assert (HL : passLayers rampSettings = INR 2) by (simpl; lra).
  destruct (generateDeepEngraving_nat_layers (whiteImage 4 4) rampSettings 2 HL)
    as (e & He & Hp).
  exists e. split; [exact He|]. rewrite Hp. cbn [seq map].
  rewrite !layerPass_power, !layerPass_speed. simpl.
  repeat split; try lra.
  - repeat (apply (f_equal2 cons); [solve_minmax|]). reflexivity.
  - solve_minmax.
  - repeat (apply (f_equal2 cons); [solve_minmax|]). reflexivity.
Qed.

(** C2, amended.  [generateDeepEngraving] always returns; the pass at index
    [p] has power [min (initial + increment * p) max] and speed
    [max (initial * reduction ^ p) min], so the power is at most
    [powerRamp.max] and the speed at least [speedProfile.min]; with a
    non-negative increment the power does not decrease from pass to pass, and
    with a non-negative initial speed and a reduction in (0, 1] the speed
    does not increase. *)
Theorem generateDeepEngraving_ramps (image : ImageData) (settings : DeepEngravingSettings) :
  exists e : Engraving,
    generateDeepEngraving image settings = Some e /\
    (forall (p : nat) (pass : Pass),
        nth_error (passes e) p = Some pass ->
        power pass = Rmin (initial (powerRamp settings)
                           + increment (powerRamp settings) * INR p)
                          (max (powerRamp settings)) /\
        speed pass = Rmax (speed_initial (speedProfile settings)
                           * reduction (speedProfile settings) ^ p)
                          (min (speedProfile settings)) /\
        power pass <= max (powerRamp settings) /\
        min (speedProfile settings) <= speed pass) /\
    (0 <= increment (powerRamp settings) ->
     forall (p q : nat) (pass_p pass_q : Pass),
       (p <= q)%nat ->
       nth_error (passes e) p = Some pass_p ->
       nth_error (passes e) q = Some pass_q ->
       power pass_p <= power pass_q) /\
    (0 <= speed_initial (speedProfile settings) ->
     0 < reduction (speedProfile settings) <= 1 ->
     forall (p q : nat) (pass_p pass_q : Pass),
       (p <= q)%nat ->
       nth_error (passes e) p = Some pass_p ->
       nth_error (passes e) q = Some pass_q ->
       speed pass_q <= speed pass_p).
Proof.
  destruct (generateDeepEngraving_passes image settings) as (e & n & He & Hp & _).
  exists e. split; [exact He|]. rewrite Hp. split; [|split].
  - intros p pass H. apply nth_error_map_seq_inv in H as [_ ->].
    rewrite layerPass_power, layerPass_speed.
    repeat split; [apply Rmin_r | apply Rmax_r].
  - intros Hinc p q pp pq Hpq H1 H2.
    apply nth_error_map_seq_inv in H1 as [_ ->].
    apply nth_error_map_seq_inv in H2 as [_ ->].
    rewrite !layerPass_power. apply Rle_min_compat_r.
    apply le_INR in Hpq. nra.
  - intros Hinit Hred p q pp pq Hpq H1 H2.
    apply nth_error_map_seq_inv in H1 as [_ ->].
    apply nth_error_map_seq_inv in H2 as [_ ->].
    rewrite !layerPass_speed. apply Rle_max_compat_r.
    apply Rmult_le_compat_l; [exact Hinit|].
    apply pow_reduction_decreasing; assumption.
Qed.

Lemma generateDeepEngraving_ramps_witness :
  0 <= increment (powerRamp scenarioSettings) /\
  0 <= speed_initial (speedProfile scenarioSettings) /\
  0 < reduction (speedProfile scenarioSettings) <= 1 /\
  exists e : Engraving,
    generateDeepEngraving (whiteImage 4 4) scenarioSettings = Some e /\
    (forall (p q : nat) (pass_p pass_q : Pass),
        (p <= q)%nat ->
        nth_error (passes e) p = Some pass_p ->
        nth_error (passes e) q = Some pass_q ->
        power pass_p <= power pass_q /\ speed pass_q <= speed pass_p).
Proof.
  assert (Hinc : 0 <= increment (powerRamp scenarioSettings)) by (simpl; lra).
  assert (Hinit : 0 <= speed_initial (speedProfile scenarioSettings)) by (simpl; lra).
  assert (Hred : 0 < reduction (speedProfile scenarioSettings) <= 1) by (simpl; lra).
  repeat split; try assumption; try apply Hred.
  destruct (generateDeepEngraving_ramps (whiteImage 4 4) scenarioSettings)
    as (e & He & _ & Hpower & Hspeed).
  exists e. split; [exact He|].
  intros p q pass_p pass_q Hpq Hp Hq. split.
  - exact (Hpower Hinc p q pass_p pass_q Hpq Hp Hq).
  - exact (Hspeed Hinit Hred p q pass_p pass_q Hpq Hp Hq).
Defined.

End DeepEngravingFacts.

(* ================================================================== *)
(** * The depth map: ranges, curves and interpolation *)
(* ================================================================== *)

Section DepthMapFacts.
Import JS DepthMapService.



Lemma nth_Float32Array (n i : nat) : nth i (Float32Array n) 0 = 0.
Proof.
  unfold Float32Array. revert i. induction n as [|n IH]; intros [|i]; simpl; auto.
Qed.

(** With the blur leaving its output buffer at zero, the unsharp mask
    multiplies every element by [1 + detailBoost / 100]. *)
Lemma enhanceDetails_gain (data : list R) (width height : nat) (settings : DepthMapSettings) :
  enhanceDetails data width height settings
  = map (fun d => d * (1 + detailBoost settings / 100)) data.
Proof.
  unfold enhanceDetails, gaussianBlur.
  rewrite <- (map_nth_seq (fun d => d * (1 + detailBoost settings / 100)) data 0).
  apply map_ext. intros i. rewrite nth_Float32Array. ring.
Qed.

Lemma byte_value_xff : byte_value xff = 255.
Proof. reflexivity. Qed.

Lemma white_pixel_grayscale :
  convertToEnhancedGrayscale (whiteImage 1 1) boostSettings = [1].
Proof.
  unfold convertToEnhancedGrayscale, whiteImage.
  cbn [width height data Nat.mul Nat.add seq map repeat nth
       gamma contrast brightness boostSettings].
  rewrite byte_value_xff.
  replace (0.299 * (255 / 255) + 0.587 * (255 / 255) + 0.114 * (255 / 255))
    with 1 by lra.
  replace (1 / 1) with 1 by lra.
  rewrite Math_pow_exponent_1 by lra.
  unfold applyContrastBrightness. f_equal. solve_minmax.
Qed.

Lemma white_pixel_scale_1 :
  scalePixels [1] 1 1 1 boostSettings = [Some 1].
Proof.
  unfold scalePixels, processPixelAtScale, for_range.
  cbn [Nat.div Nat.divmod fst snd seq flat_map map app fold_left
       Nat.mul Nat.add Nat.ltb Nat.leb andb nth].
  unfold applyDepthCurve. cbn [depthCurve boostSettings].
  do 2 f_equal. unfold enhanceLocalContrast. cbn [contrast boostSettings INR].
  solve_comparisons.
Qed.

Lemma white_pixel_processAtScale_1 :
  processAtScale [1] 1 1 1 boostSettings = Some [2].
Proof.
  unfold processAtScale. rewrite white_pixel_scale_1. cbn [all_defined].
  rewrite enhanceDetails_gain. cbn [map detailBoost boostSettings].
  do 2 f_equal. lra.
Qed.



(** C3.  [generateEnhancedDepthMap] produces no depth map: on every image
    and with every settings, the call of [this.blendProcessedScales], a
    method that the class does not define, throws a [TypeError] and the
    promise is rejected.  The buffer of scale 1 that it was about to blend
    holds 2 on a single white pixel with the detail boost at 100, outside
    [0, 1]. *)
Theorem generateEnhancedDepthMap_throws_TypeError :
  (forall (imageData : ImageData) (settings : DepthMapSettings),
      generateEnhancedDepthMap imageData settings = Throws TypeError)
  /\ processAtScale (convertToEnhancedGrayscale (whiteImage 1 1) boostSettings)
                    1 1 1 boostSettings = Some [2]
  /\ 1 < 2.
Proof.
  split; [intros imageData settings; reflexivity|].
  rewrite white_pixel_grayscale.
  split; [exact white_pixel_processAtScale_1|lra].
Qed.

Lemma applyDepthCurve_custom_unset (value : R) (settings : DepthMapSettings) :
  depthCurve settings = custom -> customCurve settings = None ->
  applyDepthCurve value settings = Some value.
Proof. intros Hc Hu. unfold applyDepthCurve. now rewrite Hc, Hu. Qed.

Lemma processPixelAtScale_custom_unset grayscale x y scale width height settings :
  depthCurve settings = custom -> customCurve settings = None ->
  processPixelAtScale grayscale x y scale width height settings
  = processPixelAtScale grayscale x y scale width height (withDepthCurve linear settings).
Proof.
  intros Hc Hu. unfold processPixelAtScale.
  destruct (for_range scale _ _) as [sum count].
  rewrite applyDepthCurve_custom_unset by assumption.
  reflexivity.
Qed.

Lemma processAtScale_custom_unset grayscale width height scale settings :
  depthCurve settings = custom -> customCurve settings = None ->
  processAtScale grayscale width height scale settings
  = processAtScale grayscale width height scale (withDepthCurve linear settings).
Proof.
  intros Hc Hu. unfold processAtScale, scalePixels.
  assert (E : forall rows : list nat,
             flat_map (fun y =>
                         map (fun x => processPixelAtScale grayscale x y scale
                                         width height settings)
                             (seq 0 (width / scale))) rows
             = flat_map (fun y =>
                           map (fun x => processPixelAtScale grayscale x y scale
                                           width height (withDepthCurve linear settings))
                               (seq 0 (width / scale))) rows).
  { intros rows. apply flat_map_ext. intros y. apply map_ext. intros x.
    now apply processPixelAtScale_custom_unset. }
  rewrite E. destruct (all_defined _); reflexivity.
Qed.

(** C4, as stated, fails.  With the custom curve selected and no
    [customCurve], [applyDepthCurve] returns its argument, as the linear
    curve does, in both services; nothing is raised. *)
Lemma applyDepthCurve_custom_unset_counterexample :
  applyDepthCurve 0.5 customUnset = Some 0.5 /\
  applyDepthCurve 0.5 customUnset = applyDepthCurve 0.5 (withDepthCurve linear customUnset) /\
  LaserEngravingService.applyDepthCurve 0.5 LaserEngravingService.customUnset = 0.5.
Proof. repeat split; reflexivity. Qed.

(** C4, amended.  When [depthCurve] is custom and [customCurve] is unset,
    [applyDepthCurve] returns its argument unchanged and every scale buffer
    is the one the linear curve gives; the same holds for [applyDepthCurve]
    of LaserEngravingService.  No error is raised. *)
Theorem applyDepthCurve_custom_unset_is_linear :
  (forall (value : R) (settings : DepthMapSettings),
      depthCurve settings = custom -> customCurve settings = None ->
      applyDepthCurve value settings = Some value /\
      applyDepthCurve value settings
      = applyDepthCurve value (withDepthCurve linear settings))
  /\
  (forall (grayscale : list R) (width height scale : nat) (settings : DepthMapSettings),
      depthCurve settings = custom -> customCurve settings = None ->
      processAtScale grayscale width height scale settings
      = processAtScale grayscale width height scale (withDepthCurve linear settings))
  /\
  (forall (depth : R) (settings : LaserEngravingService.DepthMapSettings),
      LaserEngravingService.curve settings = LaserEngravingService.custom ->
      LaserEngravingService.customCurve settings = None ->
      LaserEngravingService.applyDepthCurve depth settings = depth).
Proof.
  split; [|split].
  - intros value settings Hc Hu. split.
    + now apply applyDepthCurve_custom_unset.
    + now rewrite applyDepthCurve_custom_unset.
  - intros. now apply processAtScale_custom_unset.
  - intros depth settings Hc Hu. unfold LaserEngravingService.applyDepthCurve.
    now rewrite Hc, Hu.
Qed.

Lemma applyDepthCurve_custom_unset_is_linear_witness :
  applyDepthCurve 0.25 customUnset = Some 0.25 /\
  processAtScale [1] 1 1 1 customUnset
  = processAtScale [1] 1 1 1 (withDepthCurve linear customUnset) /\
  LaserEngravingService.applyDepthCurve 0.25 LaserEngravingService.customUnset = 0.25.
Proof.
  destruct applyDepthCurve_custom_unset_is_linear as (Hcurve & Hscale & Hlaser).
  split; [|split].
  - apply (Hcurve 0.25 customUnset); reflexivity.
  - apply (Hscale [1] 1%nat 1%nat 1%nat customUnset); reflexivity.
  - apply (Hlaser 0.25 LaserEngravingService.customUnset); reflexivity.
Defined.

Lemma scanCurve_control_point (curve : list R) (i k : nat) (c : R) :
  StronglySorted Rlt curve ->
  nth_error curve i = Some c ->
  scanCurve c curve k = (k + i)%nat.
Proof.
  intros Hsorted. revert i k.
  induction Hsorted as [|a rest Hrest IH Hall]; intros i k Hnth.
  - destruct i; discriminate.
  - destruct i as [|i]; simpl in *.
    + injection Hnth as ->. destruct (Rlt_dec c c); [lra|lia].
    + assert (Hac : a < c).
      { rewrite Forall_forall in Hall. apply Hall. eapply nth_error_In; eauto. }
      destruct (Rlt_dec a c); [|contradiction].
      rewrite (IH i (S k) Hnth). lia.
Qed.

Lemma sorted_adjacent (curve : list R) (i : nat) (lo hi : R) :
  StronglySorted Rlt curve ->
  nth_error curve i = Some lo -> nth_error curve (S i) = Some hi -> lo < hi.
Proof.
  intros Hsorted. revert i.
  induction Hsorted as [|a rest Hrest IH Hall]; intros i Hlo Hhi.
  - destruct i; discriminate.
  - destruct i as [|i].
    + injection Hlo as ->. rewrite Forall_forall in Hall. apply Hall.
      apply (nth_error_In rest 0). exact Hhi.
    + apply (IH i); assumption.
Qed.

(** C7, as stated, fails on doubles.  On the curve [0.2, 0.9], which
    increases strictly, the interpolation at the control point 0.9 computes
    [t = 1] and returns [0.2 + 1 * (0.9 - 0.2)], which rounds to the double
    just below 0.9. *)
Lemma interpolateCustomCurve_double_counterexample :
  PrimFloat.ltb DepthMapServiceDouble.double_0_2 DepthMapServiceDouble.double_0_9 = true /\
  DepthMapServiceDouble.interpolateCustomCurve
    DepthMapServiceDouble.double_0_9
    [DepthMapServiceDouble.double_0_2; DepthMapServiceDouble.double_0_9]
  = Some DepthMapServiceDouble.double_below_0_9 /\
  PrimFloat.ltb DepthMapServiceDouble.double_below_0_9 DepthMapServiceDouble.double_0_9
  = true.
Proof. repeat split; vm_compute; reflexivity. Qed.

(** C7, amended.  Over exact arithmetic, on a curve whose control points
    increase strictly, [interpolateCustomCurve] at a control point returns
    that control point. *)
Theorem interpolateCustomCurve_control_point (curve : list R) (i : nat) (c : R) :
  StronglySorted Rlt curve ->
  nth_error curve i = Some c ->
  interpolateCustomCurve c curve = Some c.
Proof.
  intros Hsorted Hnth. unfold interpolateCustomCurve.
  rewrite (scanCurve_control_point curve i 0 c Hsorted Hnth). simpl.
  assert (Hi : (i < length curve)%nat) by (apply nth_error_Some; congruence).
  destruct (Nat.eqb_spec i 0) as [->|Hpos]; [exact Hnth|].
  destruct (Nat.eqb_spec i (length curve)); [lia|].
  destruct (nth_error curve (i - 1)) as [lo|] eqn:Hlo.
  - rewrite Hnth. f_equal.
    assert (lo < c).
    { apply (sorted_adjacent curve (i - 1) lo c Hsorted Hlo).
      replace (S (i - 1)) with i by lia. exact Hnth. }
    field. lra.
  - apply nth_error_None in Hlo. lia.
Qed.

Lemma interpolateCustomCurve_control_point_witness :
  StronglySorted Rlt [0; 0.5; 1] /\
  nth_error [0; 0.5; 1] 1 = Some 0.5 /\
  interpolateCustomCurve 0.5 [0; 0.5; 1] = Some 0.5.
Proof.
  assert (Hs : StronglySorted Rlt [0; 0.5; 1]).
  { repeat constructor; lra. }
  split; [exact Hs|]. split; [reflexivity|].
  apply (interpolateCustomCurve_control_point [0; 0.5; 1] 1 0.5 Hs). reflexivity.
Defined.

End DepthMapFacts.

(* ================================================================== *)
(** * Toolpath planning: the number of passes *)
(* ================================================================== *)

Section ToolpathFacts.
Import JS LaserEngravingService.

Lemma generateOptimizedToolpaths_passes heightmap settings n :
  passCount heightmap settings = Some n ->
  generateOptimizedToolpaths heightmap settings
  = Some (map (passToolpath heightmap settings) (seq 0 (Z.to_nat n))).
Proof.
  intros H. unfold generateOptimizedToolpaths. rewrite H. unfold for_range.
  now rewrite fold_left_push_map.
Qed.

Lemma passCount_overrun : passCount [[1]] overrunSettings = Some 4%Z.
Proof.
  unfold passCount.
  cbn [concat app Math_max_list fold_left maxPasses depthPerPass overrunSettings].
  replace (1 * 2 / 0.5) with (IZR 4) by lra.
  now rewrite Math_ceil_integer.
Qed.

(** C5.  On a heightmap of one cell of height 1, with [maxPasses = 2] and
    [depthPerPass = 0.5], [generateOptimizedToolpaths] returns the four
    passes 1, 2, 3, 4: the count [ceil (1 * 2 / 0.5)] is not capped by
    [maxPasses]. *)
Theorem generateOptimizedToolpaths_exceeds_maxPasses :
  exists toolpaths : list Toolpath,
    generateOptimizedToolpaths [[1]] overrunSettings = Some toolpaths /\
    map pass toolpaths = [1; 2; 3; 4]%nat /\
    maxPasses overrunSettings = 2.
Proof.
  eexists. split; [apply generateOptimizedToolpaths_passes, passCount_overrun|].
  split; reflexivity.
Qed.

End ToolpathFacts.

(* ================================================================== *)
(** * Laser profiles: power mapping and focal adjustment *)
(* ================================================================== *)

Section LaserProfileFacts.
Import JS LaserProfileService.

Lemma length_linearCurve : length linearCurve = 256%nat.
Proof. unfold linearCurve. now rewrite length_map, length_seq. Qed.

Lemma linearCurve_entry (k : nat) :
  (k < 256)%nat -> nth_error linearCurve k = Some (INR k / 255).
Proof.
  intros Hk. exact (nth_error_map_seq (fun i => INR i / 255) 256 k Hk).
Qed.

Lemma array_get_linearCurve (z : Z) :
  (0 <= z < 256)%Z -> array_get linearCurve z = Some (IZR z / 255).
Proof.
  intros Hz. unfold array_get.
  destruct (Z.ltb_spec z 0); [lia|].
  rewrite linearCurve_entry by lia. rewrite INR_IZR_INZ, Z2Nat.id by lia. reflexivity.
Qed.

Lemma Math_floor_scaled_unit (a : R) (len : nat) :
  0 <= a <= 1 -> (1 <= len)%nat ->
  (0 <= Math_floor (a * (INR len - 1)) <= Z.of_nat len - 1)%Z.
Proof.
  intros Ha Hlen.
  assert (Hl : 1 <= INR len) by (apply (le_INR 1); exact Hlen).
  destruct (Math_floor_bounds (a * (INR len - 1))) as [Hlo Hhi].
  assert (Hx : 0 <= a * (INR len - 1) <= INR len - 1) by nra.
  split.
  - assert (H : (-1 < Math_floor (a * (INR len - 1)))%Z) by (apply lt_IZR; lra).
    lia.
  - apply le_IZR. rewrite minus_IZR, <- INR_IZR_INZ. lra.
Qed.

(** X2.  The passes of [generatePowerMap] are those of the indices below
    [min (ceil (maxDepth / depthPerPass)) passes]: with [passes] a natural
    number [P], there are at most [P] of them. *)
Theorem generatePowerMap_capped (heightmap : list (list R)) (profile : LaserProfile)
        (options : PowerMapOptions) (P : nat) :
  passes options = INR P ->
  exists powerPasses : list PowerPass,
    generatePowerMap heightmap profile options = Some powerPasses /\
    (length powerPasses <= P)%nat.
Proof.
  intros HP. unfold generatePowerMap.
  set (actualPasses :=
         Math_min (IZR (Math_ceil (pm_maxDepth options / depthPerPass options)))
                  (passes options)).
  destruct (for_lt_total actualPasses
              (fun pass acc => acc ++ [powerPass heightmap profile options pass]) [])
    as [res Hres].
  exists res. split; [exact Hres|].
  destruct (for_lt_returns_fold _ _ _ _ _ _ Hres) as (n & -> & Hbelow & _).
  rewrite fold_left_push_map. simpl. rewrite length_map, length_seq.
  destruct n as [|n]; [lia|].
  assert (Hlast : INR n < actualPasses) by (apply Hbelow; lia).
  assert (Hcap : actualPasses <= INR P).
  { unfold actualPasses, Math_min. rewrite HP. apply Rmin_r. }
  assert (Hlt : INR n < INR P) by lra.
  apply INR_lt in Hlt. lia.
Qed.

Lemma generatePowerMap_capped_witness :
  exists powerPasses : list PowerPass,
    generatePowerMap [[1]] seamann50
      {| pm_maxDepth := 2; passes := INR 2; baseSpeed := 100;
         depthPerPass := 0.5; powerAdjustment := 1 |}
    = Some powerPasses /\
    (length powerPasses <= 2)%nat.
Proof.
  apply (generatePowerMap_capped [[1]] seamann50
           {| pm_maxDepth := 2; passes := INR 2; baseSpeed := 100;
              depthPerPass := 0.5; powerAdjustment := 1 |} 2).
  reflexivity.
Defined.

(** C6, as stated, fails.  At grayscale 1 with contrast 0, brightness 0 and
    gamma 1 the code multiplies by the contrast and returns [minPower] = 0,
    where the mapping of the specification returns [maxPower] = 100. *)
Lemma calculatePowerForGrayscale_counterexample :
  calculatePowerForGrayscale seamann50 1 neutralOptions = Some 0 /\
  powerFor_spec seamann50 1 neutralOptions = Some 100.
Proof.
  split.
  - unfold calculatePowerForGrayscale.
    cbn [gamma contrast brightness opt_minPower opt_maxPower neutralOptions
         settings powerCurve seamann50].
    rewrite length_linearCurve, INR_256.
    replace (1 / 1) with 1 by lra. rewrite Math_pow_exponent_1 by lra.
    replace (Math_max 0 (Math_min 1 (1 * 0 + 0))) with 0 by solve_minmax.
    replace (0 * (256 - 1)) with (IZR 0) by lra.
    rewrite Math_floor_integer, array_get_linearCurve by lia.
    f_equal. lra.
  - unfold powerFor_spec.
    cbn [gamma contrast brightness opt_minPower opt_maxPower neutralOptions
         settings powerCurve seamann50].
    replace (1 / 1) with 1 by lra. rewrite Math_pow_exponent_1 by lra.
    replace (Math_max 0 (Math_min 1 (0.5 + (1 - 0.5) * (1 + 0 / 100) + 0 / 100)))
      with 1 by solve_minmax.
    replace (1 * 255) with (IZR 255) by lra.
    rewrite Math_floor_integer, array_get_linearCurve by lia.
    f_equal. lra.
Qed.

(** C6, amended.  For a grayscale value in [0, 1], a gamma > 0 and a profile
    whose power curve is not empty, [calculatePowerForGrayscale] applies the
    gamma correction [value ^ (1 / gamma)], which stays in [0, 1], then
    contrast and brightness as
    [value * contrast + brightness], clamps to [0, 1], takes the index
    [floor (value * (length - 1))] (that is [floor (value * 255)] on a curve
    of 256 entries), which lies inside the curve, and returns
    [minPower + (maxPower - minPower) * curve[index]]. *)
Theorem calculatePowerForGrayscale_formula
        (profile : LaserProfile) (grayscaleValue : R) (options : PowerOptions) :
  0 <= grayscaleValue <= 1 ->
  0 < gamma options ->
  (1 <= length (powerCurve (settings profile)))%nat ->
  let curve := powerCurve (settings profile) in
  let adjusted :=
    Rmax 0 (Rmin 1 (Math_pow grayscaleValue (1 / gamma options) * contrast options
                    + brightness options)) in
  let index := Math_floor (adjusted * (INR (length curve) - 1)) in
  0 <= Math_pow grayscaleValue (1 / gamma options) <= 1 /\
  (0 <= index <= Z.of_nat (length curve) - 1)%Z /\
  (length curve = 256%nat -> index = Math_floor (adjusted * 255)) /\
  exists curveValue : R,
    nth_error curve (Z.to_nat index) = Some curveValue /\
    calculatePowerForGrayscale profile grayscaleValue options
    = Some (opt_minPower options
            + (opt_maxPower options - opt_minPower options) * curveValue).
Proof.
  intros Hg Hgamma Hlen curve adjusted index.
  assert (Ha : 0 <= adjusted <= 1) by apply clamp_unit.
  assert (Hi : (0 <= index <= Z.of_nat (length curve) - 1)%Z)
    by (apply Math_floor_scaled_unit; assumption).
  split.
  { apply Math_pow_unit; [exact Hg|].
    unfold Rdiv. rewrite Rmult_1_l. now apply Rinv_0_lt_compat. }
  split; [exact Hi|]. split.
  - intros H256. unfold index. rewrite H256, INR_256. f_equal. lra.
  - destruct (nth_error curve (Z.to_nat index)) as [curveValue|] eqn:Hnth.
    + exists curveValue. split; [reflexivity|].
      unfold calculatePowerForGrayscale, Math_max, Math_min.
      fold curve. fold adjusted. fold index.
      unfold array_get. destruct (Z.ltb_spec index 0); [lia|]. now rewrite Hnth.
    + apply nth_error_None in Hnth. lia.
Qed.

Lemma calculatePowerForGrayscale_formula_witness :
  0 <= 1 <= 1 /\
  0 < gamma neutralOptions /\
  (1 <= length (powerCurve (settings seamann50)))%nat /\
  exists curveValue : R,
    calculatePowerForGrayscale seamann50 1 neutralOptions
    = Some (opt_minPower neutralOptions
            + (opt_maxPower neutralOptions - opt_minPower neutralOptions) * curveValue).
Proof.
  assert (Hg : 0 <= 1 <= 1) by lra.
  assert (Hgamma : 0 < gamma neutralOptions) by (simpl; lra).
  assert (Hlen : (1 <= length (powerCurve (settings seamann50)))%nat).
  { cbn [settings powerCurve seamann50]. rewrite length_linearCurve. lia. }
  split; [exact Hg|]. split; [exact Hgamma|]. split; [exact Hlen|].
  destruct (calculatePowerForGrayscale_formula seamann50 1 neutralOptions Hg Hgamma Hlen)
    as (_ & _ & _ & curveValue & _ & Hpower).
  exists curveValue. exact Hpower.
Defined.

(** C8, as stated, fails.  At the refractive index -1
    [calculateFocalAdjustment] returns 2 for the depth 1: it raises
    nothing. *)
Lemma calculateFocalAdjustment_counterexample :
  refractiveIndex negativeIndexMaterial <= 0 /\
  calculateFocalAdjustment 1 negativeIndexMaterial = 2.
Proof. unfold calculateFocalAdjustment. simpl. split; lra. Qed.

(** C8, amended.  For every depth and every material whose refractive index
    is not zero, positive or negative, [calculateFocalAdjustment] returns
    [depth * (1 - 1 / refractiveIndex)], that is
    [depth * (refractiveIndex - 1) / refractiveIndex]; it raises nothing. *)
Theorem calculateFocalAdjustment_formula (depth : R) (material : Material) :
  refractiveIndex material <> 0 ->
  calculateFocalAdjustment depth material
  = depth * (1 - 1 / refractiveIndex material) /\
  calculateFocalAdjustment depth material
  = depth * (refractiveIndex material - 1) / refractiveIndex material.
Proof.
  intros Hn. unfold calculateFocalAdjustment. split; [reflexivity|]. now field.
Qed.

Lemma calculateFocalAdjustment_formula_witness :
  refractiveIndex glass <> 0 /\
  calculateFocalAdjustment 3 glass = 3 * (1 - 1 / refractiveIndex glass) /\
  calculateFocalAdjustment 3 glass
  = 3 * (refractiveIndex glass - 1) / refractiveIndex glass.
Proof.
  assert (Hn : refractiveIndex glass <> 0) by (simpl; lra).
  split; [exact Hn|]. exact (calculateFocalAdjustment_formula 3 glass Hn).
Defined.

End LaserProfileFacts.

(* ================================================================== *)
(** * The profile registries *)
(* ================================================================== *)

Section CatalogFacts.
Import JS LaserProfileService.

Lemma constructor_profiles :
  profiles constructor = map (fun profile => (name profile, profile)) defaultProfiles.
Proof. reflexivity. Qed.

Lemma getProfile_default (profile : LaserProfile) :
  In profile defaultProfiles -> getProfile constructor (name profile) = Some profile.
Proof.
  unfold getProfile. rewrite constructor_profiles.
  intros H. repeat (destruct H as [<-|H]; [reflexivity|]). destruct H.
Qed.

Lemma getProfile_unknown (n : string) :
  ~ In n (map name defaultProfiles) -> getProfile constructor n = None.
Proof.
  unfold getProfile. rewrite constructor_profiles.
  generalize defaultProfiles. intros l. induction l as [|p l IH]; intros H; simpl.
  - reflexivity.
  - destruct (String.eqb_spec n (name p)) as [->|Hne].
    + exfalso. apply H. now left.
    + apply IH. intros Hin. apply H. now right.
Qed.

End CatalogFacts.

Section RegistryFacts.
Import JS ProfileManagerService.
Local Open Scope string_scope.

Lemma same_value_zero_eq (a b : jsval) : same_value_zero a b = true -> a = b.
Proof.
  destruct a as [[| x | x | x | x | x]|], b as [[| y | y | y | y | y]|];
    simpl; try discriminate; try reflexivity; intros H.
  - apply Bool.eqb_prop in H. now subst.
  - destruct (Req_dec_T x y); [now subst|discriminate].
  - apply String.eqb_eq in H. now subst.
Qed.

Lemma same_value_zero_string (name : string) :
  same_value_zero (Some (JStr name)) (Some (JStr name)) = true.
Proof. simpl. apply String.eqb_refl. Qed.

Lemma getLaserProfile_addLaserProfile (this : Registry) (profile : json) (name : string) :
  member profile "name" = Some (JStr name) ->
  exists this' : Registry,
    addLaserProfile (Some profile) this = Returns this' /\
    getLaserProfile this' name = Some profile.
Proof.
  intros Hname. unfold addLaserProfile.
  assert (Hprop : prop (Some profile) "name" = Returns (Some (JStr name))).
  { unfold prop. rewrite <- Hname. destruct profile; try reflexivity. discriminate. }
  rewrite Hprop. simpl. eexists. split; [reflexivity|].
  unfold getLaserProfile. simpl.
  rewrite (map_get_set_same same_value_zero); [reflexivity|].
  apply same_value_zero_string.
Qed.

Lemma perform_importProfile (this : Registry) (parsed : outcome json) :
  perform this (call_importProfile parsed)
  = match importBody parsed this with
    | Returns this' => this'
    | Throws _ => this
    end.
Proof.
  unfold perform, importProfile, stateAfter.
  destruct (importBody parsed this); reflexivity.
Qed.

Lemma is_string_exclusive (v : jsval) (s s' : string) :
  is_string v s = true -> s <> s' -> is_string v s' = false.
Proof.
  destruct v as [[| | | x | |]|]; simpl; try discriminate.
  intros H Hne. apply String.eqb_eq in H. subst x. now apply String.eqb_neq.
Qed.

(** What a call does to the laser profiles: nothing, or one [set] of a
    profile that is not [undefined]. *)
Lemma perform_laserProfiles (this : Registry) (call : Call) :
  (laserKeyOf call = None /\
   laserProfiles (perform this call) = laserProfiles this)
  \/
  (exists (key : jsval) (profile : json),
      laserKeyOf call = Some key /\
      laserProfiles (perform this call)
      = map_set same_value_zero key (Some profile) (laserProfiles this)).
Proof.
  assert (Hadd : forall profile : jsval,
             (laserKeyOf (call_addLaserProfile profile) = None /\
              laserProfiles (stateAfter this (addLaserProfile profile this) (fun r => r))
              = laserProfiles this)
             \/
             (exists (key : jsval) (p : json),
                 laserKeyOf (call_addLaserProfile profile) = Some key /\
                 laserProfiles (stateAfter this (addLaserProfile profile this) (fun r => r))
                 = map_set same_value_zero key (Some p) (laserProfiles this))).
  { intros [p|]; [|left; split; reflexivity].
    destruct p; try (right; eexists; eexists; split; reflexivity).
    left; split; reflexivity. }
  assert (Hprinter : forall profile : jsval,
             laserProfiles (stateAfter this (addPrinterProfile profile this) (fun r => r))
             = laserProfiles this).
  { intros [[| | | | |]|]; reflexivity. }
  assert (Hmaterial : forall profile : jsval,
             laserProfiles (stateAfter this (addMaterialProfile profile this) (fun r => r))
             = laserProfiles this).
  { intros [[| | | | |]|]; reflexivity. }
  destruct call as [parsed | profile | profile | profile].
  - rewrite perform_importProfile.
    destruct parsed as [data|e]; [|left; split; reflexivity].
    destruct data as [| b | r | s | items | fields];
      try (left; split; reflexivity).
    unfold importBody, laserKeyOf. cbn [bind prop member].
    destruct (is_string (lookup "type" fields) "printer") eqn:Eprinter.
    + rewrite (is_string_exclusive _ _ "laser" Eprinter) by discriminate.
      left. split; [reflexivity|].
      change (laserProfiles
                (stateAfter this
                   (addPrinterProfile (lookup "profile" fields) this) (fun r => r))
              = laserProfiles this).
      apply Hprinter.
    + destruct (is_string (lookup "type" fields) "laser") eqn:Elaser.
      * exact (Hadd (lookup "profile" fields)).
      * left. split; [reflexivity|].
        destruct (is_string (lookup "type" fields) "material"); [|reflexivity].
        change (laserProfiles
                  (stateAfter this
                     (addMaterialProfile (lookup "profile" fields) this) (fun r => r))
                = laserProfiles this).
        apply Hmaterial.
  - left. split; [reflexivity|]. apply Hprinter.
  - apply Hadd.
  - left. split; [reflexivity|]. apply Hmaterial.
Qed.

Lemma getLaserProfile_kept (this : Registry) (call : Call) (name : string) :
  getLaserProfile this name <> None ->
  getLaserProfile (perform this call) name <> None.
Proof.
  unfold getLaserProfile.
  destruct (perform_laserProfiles this call) as [[_ ->]|(key & p & _ & ->)]; [auto|].
  rewrite (map_get_set_cases same_value_zero same_value_zero_eq).
  destruct (same_value_zero (Some (JStr name)) key); [discriminate|auto].
Qed.

Lemma getLaserProfile_still_absent (this : Registry) (call : Call) (name : string) :
  laserKeyOf call <> Some (Some (JStr name)) ->
  getLaserProfile this name = None ->
  getLaserProfile (perform this call) name = None.
Proof.
  unfold getLaserProfile. intros Hkey.
  destruct (perform_laserProfiles this call) as [[_ ->]|(key & p & Hk & ->)]; [auto|].
  rewrite (map_get_set_cases same_value_zero same_value_zero_eq).
  destruct (same_value_zero (Some (JStr name)) key) eqn:E; [|auto].
  apply same_value_zero_eq in E. subst key. contradiction.
Qed.

Lemma getLaserProfile_never_registered (calls : list Call) (this : Registry) (name : string) :
  getLaserProfile this name = None ->
  (forall call, In call calls -> laserKeyOf call <> Some (Some (JStr name))) ->
  getLaserProfile (fold_left perform calls this) name = None.
Proof.
  revert this. induction calls as [|call calls IH]; intros this Habsent Hcalls; simpl.
  - exact Habsent.
  - apply IH.
    + apply getLaserProfile_still_absent; [apply Hcalls; now left|exact Habsent].
    + intros c Hc. apply Hcalls. now right.
Qed.

(** The constructor returns, and leaves what its four calls leave. *)
Lemma constructor_performs_defaultCalls :
  constructor = Returns (fold_left perform defaultCalls emptyRegistry).
Proof. reflexivity. Qed.

(** C9.  After [addLaserProfile(p)], [getLaserProfile(p.name)] returns [p],
    whatever the registry held before (the last write wins); a name that
    neither the constructor nor any later call registered gives
    [undefined]; no call removes a registered name; and [getProfile] of
    LaserProfileService returns each profile of its catalogue under its
    name and [undefined] under any other name. *)
Theorem laser_registry_last_write_wins :
  (forall (this : Registry) (profile : json) (name : string),
      member profile "name" = Some (JStr name) ->
      exists this' : Registry,
        addLaserProfile (Some profile) this = Returns this' /\
        getLaserProfile this' name = Some profile)
  /\
  (forall (initial : Registry) (calls : list Call) (name : string),
      constructor = Returns initial ->
      name <> "Raycus 50W Fiber" -> name <> "JPT 70W MOPA" ->
      (forall call, In call calls -> laserKeyOf call <> Some (Some (JStr name))) ->
      getLaserProfile (fold_left perform calls initial) name = None)
  /\
  (forall (this : Registry) (call : Call) (name : string),
      getLaserProfile this name <> None ->
      getLaserProfile (perform this call) name <> None)
  /\
  (forall profile : LaserProfileService.LaserProfile,
      In profile LaserProfileService.defaultProfiles ->
      LaserProfileService.getProfile LaserProfileService.constructor
        (LaserProfileService.name profile) = Some profile)
  /\
  (forall name : string,
      ~ In name (map LaserProfileService.name LaserProfileService.defaultProfiles) ->
      LaserProfileService.getProfile LaserProfileService.constructor name = None).
Proof.
  split; [|split; [|split; [|split]]].
  - apply getLaserProfile_addLaserProfile.
  - intros initial calls name Hinit H1 H2 Hcalls.
    assert (initial = fold_left perform defaultCalls emptyRegistry) as ->.
    { rewrite constructor_performs_defaultCalls in Hinit. congruence. }
    rewrite <- fold_left_app.
    apply getLaserProfile_never_registered; [reflexivity|].
    intros call Hin. apply in_app_or in Hin as [Hin|Hin]; [|now apply Hcalls].
    repeat (destruct Hin as [<-|Hin]; [simpl; congruence|]). destruct Hin.
  - apply getLaserProfile_kept.
  - apply getProfile_default.
  - apply getProfile_unknown.
Qed.

Lemma laser_registry_last_write_wins_witness :
  (exists this' : Registry,
      addLaserProfile (Some customLaser) (fold_left perform defaultCalls emptyRegistry)
      = Returns this' /\
      getLaserProfile this' "Bench 20W Diode" = Some customLaser)
  /\
  getLaserProfile
    (fold_left perform [call_addLaserProfile (Some customLaser)]
               (fold_left perform defaultCalls emptyRegistry))
    "nLight 200W Fiber" = None
  /\
  getLaserProfile
    (perform (fold_left perform defaultCalls emptyRegistry)
             (call_importProfile (Returns resinEnvelope)))
    "JPT 70W MOPA" <> None
  /\
  LaserProfileService.getProfile LaserProfileService.constructor
    (LaserProfileService.name LaserProfileService.ipg150)
  = Some LaserProfileService.ipg150
  /\
  LaserProfileService.getProfile LaserProfileService.constructor "Bench 20W Diode" = None.
Proof.
  destruct laser_registry_last_write_wins as (Hset & Habsent & Hkept & Hdefault & Hunknown).
  split; [|split; [|split; [|split]]].
  - apply Hset. reflexivity.
  - apply Habsent.
    + reflexivity.
    + discriminate.
    + discriminate.
    + intros call [<-|[]]. simpl. discriminate.
  - apply Hkept. discriminate.
  - apply Hdefault. simpl. tauto.
  - apply Hunknown. simpl. intuition discriminate.
Defined.

(** C10.  [importProfile] never throws: it returns a boolean and a state on
    every outcome of [JSON.parse]; when [JSON.parse] throws (the string is
    not valid JSON) it returns [false] and leaves every registry as it was;
    and on a document whose [type] is none of printer, laser and material
    it returns [true] and leaves every registry as it was. *)
Theorem importProfile_never_throws :
  (forall (parsed : outcome json) (this : Registry),
      exists (ok : bool) (this' : Registry),
        importProfile parsed this = Returns (ok, this'))
  /\
  (forall (e : error) (this : Registry),
      importProfile (Throws e) this = Returns (false, this))
  /\
  (forall (data : json) (type : jsval) (this : Registry),
      prop (Some data) "type" = Returns type ->
      is_string type "printer" = false ->
      is_string type "laser" = false ->
      is_string type "material" = false ->
      importProfile (Returns data) this = Returns (true, this)).
Proof.
  split; [|split].
  - intros parsed this. unfold importProfile.
    destruct (importBody parsed this); eexists; eexists; reflexivity.
  - reflexivity.
  - intros data type this Htype Hp Hl Hm.
    unfold importProfile, importBody. cbn [bind].
    rewrite Htype. cbn [bind]. now rewrite Hp, Hl, Hm.
Qed.

(** On the document [null] the read of [type] throws, and the [catch] block
    returns [false]. *)
Lemma importProfile_null_document (this : Registry) :
  importProfile (Returns JNull) this = Returns (false, this).
Proof. reflexivity. Qed.

Lemma importProfile_never_throws_witness :
  prop (Some resinEnvelope) "type" = Returns (Some (JStr "resin")) /\
  importProfile (Returns resinEnvelope) emptyRegistry = Returns (true, emptyRegistry).
Proof.
  split; [reflexivity|].
  apply (proj2 (proj2 importProfile_never_throws) resinEnvelope (Some (JStr "resin")));
    reflexivity.
Defined.

End RegistryFacts.

(* ================================================================== *)
(** * Further properties of the services *)
(* ================================================================== *)

Section CountingFacts.
Import JS.

Lemma Math_ceil_bounds (x : R) : IZR (Math_ceil x) - 1 < x <= IZR (Math_ceil x).
Proof.
  unfold Math_ceil. rewrite opp_IZR.
  destruct (base_Int_part (- x)). lra.
Qed.

(** The number of naturals below a real bound. *)
Lemma count_below_bound (bound : R) (n : nat) :
  (forall k, (k < n)%nat -> INR k < bound) ->
  ~ INR n < bound ->
  n = Z.to_nat (Math_ceil bound).
Proof.
  intros Hbelow Hstop.
  destruct (Math_ceil_bounds bound) as [Hlo Hhi].
  assert (Hn : bound <= INR n) by lra.
  destruct n as [|n].
  - simpl in Hn.
    assert (Hc : (Math_ceil bound < 1)%Z) by (apply lt_IZR; lra).
    lia.
  - assert (Hlast : INR n < bound) by (apply Hbelow; lia).
    rewrite S_INR in Hn. rewrite INR_IZR_INZ in Hlast, Hn.
    assert (H1 : (Z.of_nat n < Math_ceil bound)%Z) by (apply lt_IZR; lra).
    assert (H2 : (Math_ceil bound - 1 < Z.of_nat n + 1)%Z).
    { apply lt_IZR. rewrite minus_IZR, plus_IZR. lra. }
    lia.
Qed.

End CountingFacts.

Section DeepEngravingPasses.
Import JS DeepEngravingService.

Lemma layerPass_paths dm settings layer : paths (layerPass dm settings layer) = [].
Proof.
  unfold layerPass. cbn [paths].
  destruct (Rgt_dec (INR layer) (passLayers settings / 2)); reflexivity.
Qed.

Lemma layerPass_focus dm settings layer :
  pass_focusOffset (layerPass dm settings layer)
  = depth (layerPass dm settings layer) * focusOffset (beamProfile settings).
Proof. reflexivity. Qed.

(** X3.  [generateDeepEngraving] returns on every input, with
    [ceil passLayers] passes whatever real number [passLayers] is, and none
    when [passLayers] is not positive.  For a positive [passLayers] and
    [maxDepth] the last pass is at least [maxDepth] deep, and exactly
    [maxDepth] deep only when [passLayers] is a whole number: a fractional
    [passLayers] engraves deeper than [maxDepth]. *)
Theorem generateDeepEngraving_real_layers (image : ImageData)
        (settings : DeepEngravingSettings) :
  exists e : Engraving,
    generateDeepEngraving image settings = Some e /\
    length (passes e) = Z.to_nat (Math_ceil (passLayers settings)) /\
    (passLayers settings <= 0 -> passes e = []) /\
    (0 < passLayers settings -> 0 < maxDepth settings ->
     exists final, nth_error (passes e) (length (passes e) - 1) = Some final /\
                   maxDepth settings <= depth final /\
                   (depth final = maxDepth settings ->
                    passLayers settings = IZR (Math_ceil (passLayers settings)))).
Proof.
  destruct (generateDeepEngraving_passes image settings) as (e & n & He & Hp & Hbelow & Hstop).
  exists e. split; [exact He|].
  pose proof (count_below_bound _ _ Hbelow Hstop) as Hn.
  rewrite Hp, length_map, length_seq. split; [exact Hn|]. split.
  - intros Hle. destruct n as [|n]; [reflexivity|].
    assert (INR 0 < passLayers settings) by (apply Hbelow; lia). simpl in *. lra.
  - intros Hpos Hdepth.
    destruct n as [|n]; [simpl in Hstop; lra|].
    exists (layerPass (generateEnhancedDepthMap image) settings n).
    replace (S n - 1)%nat with n by lia.
    split; [apply nth_error_map_seq; lia|].
    rewrite layerPass_depth.
    assert (Hge : passLayers settings <= INR n + 1) by (rewrite <- S_INR; lra).
    assert (Hq : (INR n + 1) * maxDepth settings / passLayers settings
                 - maxDepth settings
                 = maxDepth settings * (INR n + 1 - passLayers settings)
                   / passLayers settings) by (field; lra).
    assert (Hinv : 0 < / passLayers settings) by (apply Rinv_0_lt_compat; lra).
    split.
    + assert (0 <= maxDepth settings * (INR n + 1 - passLayers settings)
                   / passLayers settings).
      { unfold Rdiv. apply Rmult_le_pos; [|lra]. apply Rmult_le_pos; lra. }
      lra.
    + intros Heq.
      assert (Hc : Math_ceil (passLayers settings) = Z.of_nat (S n)) by lia.
      assert (Hz : maxDepth settings * (INR n + 1 - passLayers settings)
                   / passLayers settings = 0) by lra.
      unfold Rdiv in Hz.
      apply Rmult_integral in Hz as [Hz|Hz]; [|lra].
      apply Rmult_integral in Hz as [Hz|Hz]; [lra|].
      rewrite Hc, <- INR_IZR_INZ, S_INR. lra.
Qed.

(** X4.  The passes of [generateDeepEngraving] are equally spaced in depth:
    between the passes of indices [p < q] the depth grows by
    [(q - p) * (maxDepth / passLayers)], so it increases strictly. *)
Theorem generateDeepEngraving_depth_steps (image : ImageData)
        (settings : DeepEngravingSettings) (e : Engraving) :
  generateDeepEngraving image settings = Some e ->
  0 < maxDepth settings ->
  0 < passLayers settings ->
  forall (p q : nat) (pass_p pass_q : Pass),
    (p < q)%nat ->
    nth_error (passes e) p = Some pass_p ->
    nth_error (passes e) q = Some pass_q ->
    depth pass_q - depth pass_p
    = INR (q - p) * (maxDepth settings / passLayers settings) /\
    depth pass_p < depth pass_q.
Proof.
  intros He HD HL p q pp pq Hpq H1 H2.
  destruct (generateDeepEngraving_passes image settings) as (e' & n & He' & Hp & _).
  rewrite He in He'. injection He' as <-. rewrite Hp in H1, H2.
  apply nth_error_map_seq_inv in H1 as [_ ->].
  apply nth_error_map_seq_inv in H2 as [_ ->].
  rewrite !layerPass_depth.
  assert (Hstep : 0 < maxDepth settings / passLayers settings).
  { unfold Rdiv. apply Rmult_lt_0_compat; [lra|]. apply Rinv_0_lt_compat; lra. }
  assert (Hd : (INR q + 1) * maxDepth settings / passLayers settings
               - (INR p + 1) * maxDepth settings / passLayers settings
               = INR (q - p) * (maxDepth settings / passLayers settings)).
  { rewrite minus_INR by lia. field. lra. }
  split; [exact Hd|].
  assert (0 < INR (q - p)) by (apply lt_0_INR; lia).
  assert (0 < INR (q - p) * (maxDepth settings / passLayers settings))
    by (apply Rmult_lt_0_compat; assumption).
  lra.
Qed.

Lemma generateDeepEngraving_depth_steps_witness :
  exists (e : Engraving) (first second : Pass),
    generateDeepEngraving (whiteImage 4 4) scenarioSettings = Some e /\
    nth_error (passes e) 0 = Some first /\
    nth_error (passes e) 1 = Some second /\
    depth first < depth second.
Proof.
  destruct (generateDeepEngraving_nat_layers (whiteImage 4 4) scenarioSettings 4)
    as (e & He & Hp); [simpl; lra|].
  exists e.
  exists (layerPass (generateEnhancedDepthMap (whiteImage 4 4)) scenarioSettings 0).
  exists (layerPass (generateEnhancedDepthMap (whiteImage 4 4)) scenarioSettings 1).
  assert (H0 : nth_error (passes e) 0
               = Some (layerPass (generateEnhancedDepthMap (whiteImage 4 4))
                                 scenarioSettings 0)) by (rewrite Hp; reflexivity).
  assert (H1 : nth_error (passes e) 1
               = Some (layerPass (generateEnhancedDepthMap (whiteImage 4 4))
                                 scenarioSettings 1)) by (rewrite Hp; reflexivity).
  repeat split; try assumption.
  apply (generateDeepEngraving_depth_steps (whiteImage 4 4) scenarioSettings e He)
    with (p := 0%nat) (q := 1%nat); try assumption; simpl; try lra; lia.
Defined.

(** X5.  No pass of [generateDeepEngraving] carries a path point:
    [generateLayerPaths] and [generateCrosshatchPaths] return empty arrays,
    also for the layers beyond [passLayers / 2] that get the crosshatch.
    The focus offset of a pass is its depth times [beamProfile.focusOffset],
    [totalTime] is 0, [maxDepth] is the setting, and the preview holds the
    base mesh and, with [showLaserTrail], one line without position per
    pass. *)
Theorem generateDeepEngraving_emits_no_path (image : ImageData)
        (settings : DeepEngravingSettings) :
  exists e : Engraving,
    generateDeepEngraving image settings = Some e /\
    (forall pass, In pass (passes e) ->
       paths pass = [] /\
       pass_focusOffset pass = depth pass * focusOffset (beamProfile settings)) /\
    totalTime e = 0 /\
    result_maxDepth e = maxDepth settings /\
    visualPreview e
    = Mesh :: (if showLaserTrail (visualEffects settings)
               then repeat (Line []) (length (passes e))
               else []).
Proof.
  destruct (generateDeepEngraving_passes image settings) as (e & n & He & Hp & _).
  exists e. split; [exact He|].
  assert (Hpaths : forall pass, In pass (passes e) -> paths pass = []).
  { intros pass Hin. rewrite Hp in Hin. apply in_map_iff in Hin as (k & <- & _).
    apply layerPass_paths. }
  split.
  - intros pass Hin. split; [now apply Hpaths|].
    rewrite Hp in Hin. apply in_map_iff in Hin as (k & <- & _).
    apply layerPass_focus.
  - unfold generateDeepEngraving in He.
    destruct (for_lt _ _ _ _ _) as [ps|]; [|discriminate].
    injection He as <-. cbn [totalTime result_maxDepth visualPreview passes] in *.
    repeat split. unfold generateVisualPreview. f_equal.
    destruct (showLaserTrail (visualEffects settings)); [|reflexivity].
    clear Hp. induction ps as [|pass ps IH]; [reflexivity|].
    cbn [map length repeat]. rewrite (Hpaths pass) by now left. cbn [flat_map].
    f_equal. apply IH. intros q Hq. apply Hpaths. now right.
Qed.

End DeepEngravingPasses.

Section InterpolationFacts.
Import JS DepthMapService.

(** Where the scan stops: below the index every element is under the value,
    and the element at the index, if any, is not. *)
Lemma scanCurve_spec (value : R) (curve : list R) (k : nat) :
  exists i : nat,
    scanCurve value curve k = (k + i)%nat /\
    (i <= length curve)%nat /\
    (forall j c, (j < i)%nat -> nth_error curve j = Some c -> c < value) /\
    (forall c, nth_error curve i = Some c -> value <= c).
Proof.
  revert k. induction curve as [|a rest IH]; intros k; simpl.
  - exists 0%nat. split; [lia|]. split; [lia|]. split.
    + intros j c Hj. lia.
    + intros c H. discriminate.
  - destruct (Rlt_dec a value) as [Hlt|Hge].
    + destruct (IH (S k)) as (i & Hi & Hlen & Hbelow & Hat).
      exists (S i). split; [lia|]. split; [lia|]. split.
      * intros [|j] c Hj Hc; simpl in Hc.
        -- injection Hc as <-. exact Hlt.
        -- apply (Hbelow j); [lia|exact Hc].
      * intros c Hc. simpl in Hc. now apply Hat.
    + exists 0%nat. split; [lia|]. split; [lia|]. split.
      * intros j c Hj. lia.
      * intros c Hc. simpl in Hc. injection Hc as <-. lra.
Qed.

Lemma last_cons_default {A : Type} (a d d' : A) (l : list A) :
  last (a :: l) d = last (a :: l) d'.
Proof.
  revert a. induction l as [|b l IH]; intros a; [reflexivity|].
  change (last (b :: l) d = last (b :: l) d'). apply IH.
Qed.

Lemma nth_error_last {A : Type} (a : A) (l : list A) :
  nth_error (a :: l) (length l) = Some (last (a :: l) a).
Proof.
  revert a. induction l as [|b l IH]; intros a; [reflexivity|].
  cbn [length nth_error]. rewrite IH. f_equal.
  change (last (b :: l) b = last (b :: l) a). apply last_cons_default.
Qed.

(** X6.  On a curve that is not empty [interpolateCustomCurve] is a clamp:
    a value at most the first control point gives the first control point,
    a value above every control point gives the last one, and every other
    value is returned unchanged, since [lo + t * (hi - lo)] with
    [t = (value - lo) / (hi - lo)] is [value] (over the reals). *)
Theorem interpolateCustomCurve_is_a_clamp (value first : R) (rest : list R) :
  let curve := first :: rest in
  (value <= first -> interpolateCustomCurve value curve = Some first) /\
  (Forall (fun c => c < value) curve ->
   interpolateCustomCurve value curve = Some (last curve first)) /\
  (first < value -> Exists (fun c => value <= c) curve ->
   interpolateCustomCurve value curve = Some value).
Proof.
  intros curve. unfold interpolateCustomCurve.
  destruct (scanCurve_spec value curve 0) as (i & Hi & Hlen & Hbelow & Hat).
  rewrite Hi. cbn [Nat.add]. split; [|split].
  - intros Hle. destruct i as [|i]; [reflexivity|].
    exfalso. assert (first < value) by (apply (Hbelow 0%nat); [lia|reflexivity]). lra.
  - intros Hall.
    assert (Hi_len : i = length curve).
    { destruct (Nat.eq_dec i (length curve)) as [|Hne]; [assumption|].
      assert (Hin : (i < length curve)%nat) by lia.
      apply nth_error_Some in Hin.
      destruct (nth_error curve i) as [c|] eqn:Hc; [|contradiction].
      rewrite Forall_forall in Hall.
      assert (c < value) by (apply Hall; eapply nth_error_In; eauto).
      assert (value <= c) by now apply Hat. lra. }
    rewrite Hi_len. cbn [length curve Nat.eqb]. rewrite Nat.eqb_refl.
    replace (S (length rest) - 1)%nat with (length rest) by lia.
    apply nth_error_last.
  - intros Hfirst Hex.
    assert (Hpos : i <> 0%nat).
    { intros ->. assert (value <= first) by (apply Hat; reflexivity). lra. }
    assert (Hin : (i < length curve)%nat).
    { destruct (Nat.eq_dec i (length curve)) as [Heq|Hne]; [|lia].
      exfalso. apply Exists_exists in Hex as (c & Hc & Hvc).
      apply In_nth_error in Hc as (j & Hj).
      assert (j < length curve)%nat by (apply nth_error_Some; congruence).
      assert (c < value) by (apply (Hbelow j); [lia|exact Hj]). lra. }
    destruct (Nat.eqb_spec i 0); [contradiction|].
    destruct (Nat.eqb_spec i (length curve)); [lia|].
    destruct (nth_error curve (i - 1)) as [lo|] eqn:Hlo;
      [|apply nth_error_None in Hlo; lia].
    destruct (nth_error curve i) as [hi|] eqn:Hhi;
      [|apply nth_error_None in Hhi; lia].
    assert (lo < value) by (apply (Hbelow (i - 1)%nat); [lia|exact Hlo]).
    assert (value <= hi) by (apply Hat; reflexivity).
    f_equal. field. lra.
Qed.

End InterpolationFacts.

Section CurveFacts.
Import JS.

Lemma Math_E_gt_1 : 1 < Math_E.
Proof. unfold Math_E. pose proof (exp_ineq1 1). lra. Qed.

(** The logarithmic curve [ln (v (e - 1) + 1)] on [0, 1]. *)
Lemma log_curve_0 : Math_log (0 * (Math_E - 1) + 1) = 0.
Proof.
  unfold Math_log. replace (0 * (Math_E - 1) + 1) with 1 by ring. apply ln_1.
Qed.

Lemma log_curve_1 : Math_log (1 * (Math_E - 1) + 1) = 1.
Proof.
  unfold Math_log, Math_E. replace (1 * (exp 1 - 1) + 1) with (exp 1) by ring.
  apply ln_exp.
Qed.

Lemma log_curve_monotone (u v : R) :
  0 <= u <= v ->
  Math_log (u * (Math_E - 1) + 1) <= Math_log (v * (Math_E - 1) + 1).
Proof.
  intros Huv. pose proof Math_E_gt_1 as He. unfold Math_log.
  destruct (Req_dec_T u v) as [->|Hne]; [lra|].
  left. apply ln_increasing; nra.
Qed.

Lemma square_curve_monotone (u v : R) :
  0 <= u <= v -> Math_pow_nat u 2 <= Math_pow_nat v 2.
Proof. intros Huv. unfold Math_pow_nat. simpl. nra. Qed.

End CurveFacts.

Section ScaleBufferFacts.
Import JS DepthMapService.

(** X7.  For each of the curves linear, exponential and logarithmic,
    [applyDepthCurve] is a function that fixes 0 and 1, is monotone on the
    non-negative numbers and maps [0, 1] into [0, 1]. *)
Theorem applyDepthCurve_unit_interval (settings : DepthMapSettings) :
  depthCurve settings <> custom ->
  exists f : R -> R,
    (forall value, applyDepthCurve value settings = Some (f value)) /\
    f 0 = 0 /\ f 1 = 1 /\
    (forall u v, 0 <= u <= v -> f u <= f v) /\
    (forall v, 0 <= v <= 1 -> 0 <= f v <= 1).
Proof.
  intros Hcurve.
  assert (Hrange : forall f : R -> R,
             f 0 = 0 -> f 1 = 1 -> (forall u v, 0 <= u <= v -> f u <= f v) ->
             forall v, 0 <= v <= 1 -> 0 <= f v <= 1).
  { intros f H0 H1 Hmono v Hv. split.
    - rewrite <- H0. apply Hmono; lra.
    - rewrite <- H1. apply Hmono; lra. }
  unfold applyDepthCurve. destruct (depthCurve settings); [| | |contradiction].
  - exists (fun v => v). repeat split; auto; intros; lra.
  - exists (fun v => Math_pow_nat v 2).
    assert (H0 : Math_pow_nat 0 2 = 0) by (unfold Math_pow_nat; simpl; ring).
    assert (H1 : Math_pow_nat 1 2 = 1) by (unfold Math_pow_nat; simpl; ring).
    split; [reflexivity|]. split; [exact H0|]. split; [exact H1|].
    split; [apply square_curve_monotone|].
    apply (Hrange (fun v => Math_pow_nat v 2) H0 H1 square_curve_monotone).
  - exists (fun v => Math_log (v * (Math_E - 1) + 1)).
    split; [reflexivity|]. split; [exact log_curve_0|]. split; [exact log_curve_1|].
    split; [apply log_curve_monotone|].
    apply (Hrange (fun v => Math_log (v * (Math_E - 1) + 1))
                  log_curve_0 log_curve_1 log_curve_monotone).
Qed.

Lemma applyDepthCurve_unit_interval_witness :
  exists f : R -> R,
    (forall value,
        applyDepthCurve value (withDepthCurve exponential boostSettings) = Some (f value)) /\
    f 0 = 0 /\ f 1 = 1.
Proof.
  destruct (applyDepthCurve_unit_interval (withDepthCurve exponential boostSettings))
    as (f & Hf & H0 & H1 & _); [simpl; discriminate|].
  exists f. repeat split; assumption.
Defined.

Lemma interpolateCustomCurve_defined (value : R) (curve : list R) :
  curve <> [] -> exists w, interpolateCustomCurve value curve = Some w.
Proof.
  intros Hne. unfold interpolateCustomCurve.
  destruct (scanCurve_spec value curve 0) as (i & Hi & Hlen & _).
  rewrite Hi. cbn [Nat.add].
  assert (Hpos : (0 < length curve)%nat) by (destruct curve; [contradiction|simpl; lia]).
  destruct (Nat.eqb_spec i 0) as [->|Hi0].
  - destruct curve; [contradiction|]. eexists; reflexivity.
  - destruct (Nat.eqb_spec i (length curve)) as [->|Hil].
    + destruct (nth_error curve (length curve - 1)) eqn:E; [eexists; reflexivity|].
      apply nth_error_None in E. lia.
    + destruct (nth_error curve (i - 1)) eqn:E1; [|apply nth_error_None in E1; lia].
      destruct (nth_error curve i) eqn:E2; [|apply nth_error_None in E2; lia].
      eexists; reflexivity.
Qed.

(** The curve gives a number unless it is the custom curve with no control
    point. *)
Lemma applyDepthCurve_defined (value : R) (settings : DepthMapSettings) :
  depthCurve settings <> custom \/ customCurve settings <> Some [] ->
  exists w, applyDepthCurve value settings = Some w.
Proof.
  intros H. unfold applyDepthCurve.
  destruct (depthCurve settings); try (eexists; reflexivity).
  destruct (customCurve settings) as [curve|]; [|eexists; reflexivity].
  apply interpolateCustomCurve_defined. intros ->. destruct H as [H|H]; now apply H.
Qed.


Lemma all_defined_Some {A : Type} (xs : list (option A)) (ys : list A) :
  all_defined xs = Some ys -> xs = map Some ys.
Proof.
  revert ys. induction xs as [|[x|] xs IH]; intros ys H; simpl in H.
  - injection H as <-. reflexivity.
  - destruct (all_defined xs) as [zs|]; [|discriminate].
    injection H as <-. simpl. f_equal. now apply IH.
  - discriminate.
Qed.

Lemma all_defined_total {A : Type} (xs : list (option A)) :
  (forall x, In x xs -> x <> None) -> exists ys, all_defined xs = Some ys.
Proof.
  induction xs as [|[x|] xs IH]; intros H; simpl.
  - eexists; reflexivity.
  - destruct IH as [ys ->]; [intros y Hy; apply H; now right|]. eexists; reflexivity.
  - exfalso. apply (H None); [now left|reflexivity].
Qed.

Lemma length_scalePixels grayscale width height scale settings :
  length (scalePixels grayscale width height scale settings)
  = ((width / scale) * (height / scale))%nat.
Proof.
  unfold scalePixels.
  assert (H : forall rows : list nat,
             length (flat_map
                       (fun y =>
                          map (fun x => processPixelAtScale grayscale x y scale
                                          width height settings)
                              (seq 0 (width / scale))) rows)
             = ((width / scale) * length rows)%nat).
  { induction rows as [|y ys IH]; simpl; [lia|].
    rewrite length_app, length_map, length_seq, IH. lia. }
  now rewrite H, length_seq.
Qed.



End ScaleBufferFacts.

Section DepthMapBuffers.
Import JS DepthMapService.

Lemma processPixelAtScale_defined grayscale x y scale width height settings :
  depthCurve settings <> custom \/ customCurve settings <> Some [] ->
  processPixelAtScale grayscale x y scale width height settings <> None.
Proof.
  intros H. unfold processPixelAtScale. destruct (for_range scale _ _) as [sum count].
  destruct (applyDepthCurve_defined (sum / INR count) settings H) as [w ->].
  discriminate.
Qed.

Lemma applyDepthCurve_empty_custom (value : R) (settings : DepthMapSettings) :
  depthCurve settings = custom -> customCurve settings = Some [] ->
  applyDepthCurve value settings = None.
Proof. intros Hc Hu. unfold applyDepthCurve. now rewrite Hc, Hu. Qed.

(** X9.  For a scale of at least 1 and a grayscale buffer that holds its
    [width * height] values, each in [0, 1], [processAtScale] returns a
    buffer of [floor (width / scale) * floor (height / scale)] numbers,
    unless the custom curve is selected with [customCurve] an empty array:
    then a pixel is [curve[0]], which is [undefined], and a scale buffer
    with a pixel holds no number there. *)
Theorem processAtScale_buffer_of_numbers
        (grayscale : list R) (width height scale : nat) (settings : DepthMapSettings) :
  (1 <= scale)%nat ->
  (width * height <= length grayscale)%nat ->
  Forall (fun sample => 0 <= sample <= 1) grayscale ->
  (depthCurve settings <> custom \/ customCurve settings <> Some [] ->
   exists processed : list R,
     processAtScale grayscale width height scale settings = Some processed /\
     length processed = ((width / scale) * (height / scale))%nat)
  /\
  (depthCurve settings = custom -> customCurve settings = Some [] ->
   (scale <= width)%nat -> (scale <= height)%nat ->
   processAtScale grayscale width height scale settings = None).
Proof.
  intros Hscale _ _. split.
  - intros H. unfold processAtScale.
    destruct (all_defined_total (scalePixels grayscale width height scale settings))
      as [pixels Hpix].
    { intros p Hin. unfold scalePixels in Hin.
      apply in_flat_map in Hin as (y & _ & Hin).
      apply in_map_iff in Hin as (x & <- & _).
      now apply processPixelAtScale_defined. }
    rewrite Hpix. eexists. split; [reflexivity|].
    rewrite enhanceDetails_gain, length_map.
    apply all_defined_Some in Hpix.
    rewrite <- (length_scalePixels grayscale width height scale settings), Hpix.
    now rewrite length_map.
  - intros Hc Hu Hw Hh. unfold processAtScale, scalePixels.
    assert (Hsw : (1 <= width / scale)%nat)
      by (apply Nat.div_le_lower_bound; lia).
    assert (Hsh : (1 <= height / scale)%nat)
      by (apply Nat.div_le_lower_bound; lia).
    destruct (width / scale)%nat as [|w]; [lia|].
    destruct (height / scale)%nat as [|h]; [lia|].
    cbn [seq flat_map map app].
    unfold processPixelAtScale at 1.
    destruct (for_range scale _ _) as [sum count].
    rewrite applyDepthCurve_empty_custom by assumption. reflexivity.
Qed.

Lemma processAtScale_buffer_of_numbers_witness :
  exists processed : list R,
    processAtScale [1] 1 1 1 boostSettings = Some processed /\
    length processed = ((1 / 1) * (1 / 1))%nat.
Proof.
  destruct (processAtScale_buffer_of_numbers [1] 1 1 1 boostSettings) as [Hdefined _];
    [lia | simpl; lia | repeat constructor; lra |].
  apply Hdefined. left. simpl. discriminate.
Defined.

(** X11.  [convertToEnhancedGrayscale] does not read the alpha channel: two
    images of the same size whose pixels agree on red, green and blue give
    the same grayscale buffer. *)
Theorem convertToEnhancedGrayscale_ignores_alpha
        (image1 image2 : ImageData) (settings : DepthMapSettings) :
  width image1 = width image2 ->
  height image1 = height image2 ->
  (forall i c, (i < width image1 * height image1)%nat -> (c < 3)%nat ->
     nth (i * 4 + c) (data image1) x00 = nth (i * 4 + c) (data image2) x00) ->
  convertToEnhancedGrayscale image1 settings
  = convertToEnhancedGrayscale image2 settings.
Proof.
  intros Hw Hh Hrgb. unfold convertToEnhancedGrayscale.
  rewrite <- Hw, <- Hh. apply map_ext_in. intros i Hi.
  apply in_seq in Hi.
  pose proof (Hrgb i 0%nat ltac:(lia) ltac:(lia)) as H0.
  rewrite Nat.add_0_r in H0.
  rewrite H0, (Hrgb i 1%nat), (Hrgb i 2%nat) by lia. reflexivity.
Qed.

Lemma convertToEnhancedGrayscale_ignores_alpha_witness :
  convertToEnhancedGrayscale opaquePixel boostSettings
  = convertToEnhancedGrayscale clearPixel boostSettings.
Proof.
  apply (convertToEnhancedGrayscale_ignores_alpha opaquePixel clearPixel boostSettings);
    [reflexivity | reflexivity |].
  intros i c Hi Hc. simpl in Hi.
  destruct i as [|i]; [|lia].
  destruct c as [|[|[|c]]]; try reflexivity. lia.
Defined.

End DepthMapBuffers.

Section BoxAverage.
Import JS DepthMapService.

Lemma window_inside (x scale width d : nat) :
  (x < width / scale)%nat -> (d < scale)%nat -> (x * scale + d < width)%nat.
Proof.
  intros Hx Hd.
  pose proof (Nat.Div0.mul_div_le width scale) as Hle.
  nia.
Qed.

Lemma fold_left_counting {A : Type} (F : R * nat -> A -> R * nat) (sample : A -> R)
      (l : list A) (sum : R) (count : nat) :
  (forall s c a, In a l -> F (s, c) a = (s + sample a, S c)) ->
  fold_left F l (sum, count)
  = (fold_left Rplus (map sample l) sum, (count + length l)%nat).
Proof.
  revert sum count.
  induction l as [|a l IH]; intros sum count H; cbn [fold_left map length].
  - now rewrite Nat.add_0_r.
  - rewrite H by now left.
    rewrite IH by (intros s c b Hb; apply H; now right).
    f_equal. lia.
Qed.

Lemma fold_left_rows {A : Type} (G : R * nat -> A -> R * nat) (row : A -> list R)
      (n : nat) (l : list A) (sum : R) (count : nat) :
  (forall s c a, In a l -> G (s, c) a = (fold_left Rplus (row a) s, (c + n)%nat)) ->
  fold_left G l (sum, count)
  = (fold_left Rplus (flat_map row l) sum, (count + n * length l)%nat).
Proof.
  revert sum count.
  induction l as [|a l IH]; intros sum count H; cbn [fold_left flat_map length].
  - f_equal. lia.
  - rewrite H by now left.
    rewrite IH by (intros s c b Hb; apply H; now right).
    rewrite fold_left_app. f_equal. lia.
Qed.

Lemma for_range_window (grayscale : list R) (x y scale width height : nat) :
  (x < width / scale)%nat -> (y < height / scale)%nat ->
  for_range scale
    (fun dy =>
       for_range scale
         (fun dx '(sum, count) =>
            let sx := (x * scale + dx)%nat in
            let sy := (y * scale + dy)%nat in
            if (sx <? width)%nat && (sy <? height)%nat
            then (sum + nth (sy * width + sx) grayscale 0, S count)
            else (sum, count)))
    (0, 0%nat)
  = (fold_left Rplus (windowSamples grayscale x y scale width) 0, (scale * scale)%nat).
Proof.
  intros Hx Hy. unfold for_range, windowSamples.
  rewrite (fold_left_rows _
             (fun dy =>
                map (fun dx => nth ((y * scale + dy) * width + (x * scale + dx))
                                   grayscale 0)
                    (seq 0 scale))
             scale).
  - rewrite length_seq. reflexivity.
  - intros s c dy Hdy. apply in_seq in Hdy.
    rewrite (fold_left_counting _
               (fun dx => nth ((y * scale + dy) * width + (x * scale + dx))
                              grayscale 0)).
    + now rewrite length_seq.
    + intros s' c' dx Hdx. apply in_seq in Hdx. cbv beta zeta.
      assert (Hsx : (x * scale + dx < width)%nat)
        by (apply window_inside; [exact Hx|lia]).
      assert (Hsy : (y * scale + dy < height)%nat)
        by (apply window_inside; [exact Hy|lia]).
      apply Nat.ltb_lt in Hsx. apply Nat.ltb_lt in Hsy.
      now rewrite Hsx, Hsy.
Qed.

Lemma fold_left_Rplus_constant (c : R) (l : list R) (s : R) :
  (forall v, In v l -> v = c) -> fold_left Rplus l s = s + INR (length l) * c.
Proof.
  revert s. induction l as [|a l IH]; intros s H.
  - simpl. ring.
  - cbn [fold_left length]. rewrite IH by (intros v Hv; apply H; now right).
    rewrite (H a) by now left. rewrite S_INR. ring.
Qed.

Lemma length_windowSamples grayscale x y scale width :
  length (windowSamples grayscale x y scale width) = (scale * scale)%nat.
Proof.
  unfold windowSamples.
  assert (H : forall rows : list nat,
             length (flat_map
                       (fun dy =>
                          map (fun dx =>
                                 nth ((y * scale + dy) * width + (x * scale + dx))
                                     grayscale 0)
                              (seq 0 scale)) rows)
             = (scale * length rows)%nat).
  { induction rows as [|dy rows IH]; simpl; [lia|].
    rewrite length_app, length_map, length_seq, IH. lia. }
  now rewrite H, length_seq.
Qed.

(** X10.  For a pixel of a scale buffer the bounds test of
    [processPixelAtScale] never fails: the window lies inside the image, so
    the pixel is the mean of exactly [scale * scale] samples, passed through
    the depth curve and the local contrast.  On a uniform buffer the mean is
    the uniform value, at every scale. *)
Theorem processPixelAtScale_box_average
        (grayscale : list R) (x y scale width height : nat)
        (settings : DepthMapSettings) :
  (x < width / scale)%nat -> (y < height / scale)%nat ->
  processPixelAtScale grayscale x y scale width height settings
  = match applyDepthCurve
            (fold_left Rplus (windowSamples grayscale x y scale width) 0
             / INR (scale * scale)) settings with
    | None => None
    | Some value => Some (enhanceLocalContrast value settings)
    end
  /\
  forall c : R,
    (forall i, (i < width * height)%nat -> nth i grayscale 0 = c) ->
    processPixelAtScale grayscale x y scale width height settings
    = match applyDepthCurve c settings with
      | None => None
      | Some value => Some (enhanceLocalContrast value settings)
      end.
Proof.
  intros Hx Hy.
  assert (Hformula :
            processPixelAtScale grayscale x y scale width height settings
            = match applyDepthCurve
                      (fold_left Rplus (windowSamples grayscale x y scale width) 0
                       / INR (scale * scale)) settings with
              | None => None
              | Some value => Some (enhanceLocalContrast value settings)
              end).
  { unfold processPixelAtScale. now rewrite for_range_window. }
  split; [exact Hformula|].
  intros c Huniform. rewrite Hformula.
  assert (Hscale : scale <> 0%nat) by (intros ->; simpl in Hx; lia).
  rewrite (fold_left_Rplus_constant c).
  - rewrite length_windowSamples.
    replace (0 + INR (scale * scale) * c) with (c * INR (scale * scale)) by ring.
    unfold Rdiv. rewrite Rmult_assoc, Rinv_r, Rmult_1_r; [reflexivity|].
    apply not_0_INR. nia.
  - intros v Hv. unfold windowSamples in Hv.
    apply in_flat_map in Hv as (dy & Hdy & Hv).
    apply in_map_iff in Hv as (dx & <- & Hdx).
    apply in_seq in Hdy. apply in_seq in Hdx.
    apply Huniform.
    pose proof (window_inside x scale width dx Hx ltac:(lia)).
    pose proof (window_inside y scale height dy Hy ltac:(lia)).
    nia.
Qed.

Lemma processPixelAtScale_box_average_witness :
  processPixelAtScale [0.5; 0.5; 0.5; 0.5] 0 0 2 2 2 boostSettings
  = match applyDepthCurve 0.5 boostSettings with
    | None => None
    | Some value => Some (enhanceLocalContrast value boostSettings)
    end.
Proof.
  destruct (processPixelAtScale_box_average [0.5; 0.5; 0.5; 0.5] 0 0 2 2 2 boostSettings)
    as [_ Huniform]; [vm_compute; lia | vm_compute; lia |].
  apply Huniform. intros i Hi.
  destruct i as [|[|[|[|i]]]]; try reflexivity. simpl in Hi. lia.
Defined.

End BoxAverage.

Section RoundingFacts.
Import JS.

(** A loop to a real bound runs its body on the naturals below the bound:
    there are [ceil bound] of them. *)
Lemma for_lt_ceil {S : Type} (bound : R) (body : nat -> S -> S) (st : S) :
  for_lt (fuel_for bound) 0 bound body st
  = Some (fold_left (fun s k => body k s) (seq 0 (Z.to_nat (Math_ceil bound))) st).
Proof.
  destruct (for_lt_total bound body st) as [res Hres].
  rewrite Hres.
  destruct (for_lt_returns_fold _ _ _ _ _ _ Hres) as (n & -> & Hbelow & Hstop).
  simpl in Hstop.
  rewrite (count_below_bound bound n); [reflexivity| |exact Hstop].
  intros k Hk. apply Hbelow. lia.
Qed.

Lemma Math_round_bounds (x : R) : IZR (Math_round x) - 0.5 <= x < IZR (Math_round x) + 0.5.
Proof. unfold Math_round. destruct (base_Int_part (x + 0.5)). lra. Qed.

(** Rounding a point of [0, N - 1] gives one of the levels 0, ..., N - 1. *)
Lemma Math_round_level (d : R) (N : nat) :
  0 <= d <= 1 -> (2 <= N)%nat ->
  exists j : nat, (j <= N - 1)%nat /\ IZR (Math_round (d * (INR N - 1))) = INR j.
Proof.
  intros Hd HN.
  assert (HN' : 2 <= INR N) by (apply (le_INR 2); exact HN).
  destruct (Math_round_bounds (d * (INR N - 1))) as [Hlo Hhi].
  assert (Hx : 0 <= d * (INR N - 1) <= INR N - 1) by nra.
  set (r := Math_round (d * (INR N - 1))) in *.
  assert (H0 : (-1 < r)%Z) by (apply lt_IZR; lra).
  assert (H1 : (r < Z.of_nat N)%Z).
  { apply lt_IZR. rewrite <- INR_IZR_INZ. lra. }
  exists (Z.to_nat r). split; [lia|].
  rewrite INR_IZR_INZ, Z2Nat.id by lia. reflexivity.
Qed.

End RoundingFacts.

Section PowerMapFacts.
Import JS LaserProfileService.

Lemma generatePowerMap_passes heightmap profile options :
  generatePowerMap heightmap profile options
  = Some (map (powerPass heightmap profile options)
              (seq 0 (Z.to_nat (Math_ceil
                 (Math_min (IZR (Math_ceil (pm_maxDepth options / depthPerPass options)))
                           (passes options)))))).
Proof.
  unfold generatePowerMap. cbv zeta. rewrite for_lt_ceil.
  now rewrite fold_left_push_map.
Qed.

(** The power of the cell [heightValue] in the pass of index [pass]. *)
Lemma powerPass_cell heightmap profile options pass y x row heightValue :
  nth_error heightmap y = Some row -> nth_error row x = Some heightValue ->
  nth x (nth y (powerMap (powerPass heightmap profile options pass)) []) 0
  = (if Rgt_dec (heightValue * pm_maxDepth options)
                ((INR pass + 1) * depthPerPass options - depthPerPass options)
     then Math_min 1 ((heightValue * pm_maxDepth options
                       - ((INR pass + 1) * depthPerPass options - depthPerPass options))
                      / depthPerPass options)
          * maxPower profile * powerAdjustment options
     else 0).
Proof.
  intros Hrow Hcell. unfold powerPass. cbn [powerMap].
  erewrite (nth_error_nth (map _ heightmap)).
  2:{ rewrite nth_error_map, Hrow. reflexivity. }
  erewrite nth_error_nth.
  2:{ rewrite nth_error_map, Hcell. reflexivity. }
  reflexivity.
Qed.

(** The fraction of one pass that a cell requires. *)
Lemma pass_fraction (required d : R) (k : nat) :
  0 < d ->
  (if Rgt_dec required ((INR k + 1) * d - d)
   then Math_min 1 ((required - ((INR k + 1) * d - d)) / d)
   else 0) * d
  = Math_min (Math_max required 0) (INR (S k) * d)
    - Math_min (Math_max required 0) (INR k * d).
Proof.
  intros Hd. rewrite S_INR.
  assert (Hk : 0 <= INR k * d) by (apply Rmult_le_pos; [apply pos_INR|lra]).
  set (kd := INR k * d) in *.
  replace ((INR k + 1) * d - d) with kd by (unfold kd; ring).
  replace ((INR k + 1) * d) with (kd + d) by (unfold kd; ring).
  destruct (Rgt_dec required kd) as [Hgt|Hle].
  - assert (Hdiv : (required - kd) / d * d = required - kd) by (field; lra).
    unfold Math_min at 1. unfold Rmin at 1.
    destruct (Rle_dec 1 ((required - kd) / d)) as [H1|H1].
    + assert (d <= required - kd).
      { rewrite <- Hdiv. nra. }
      solve_minmax.
    + assert (required - kd < d).
      { rewrite <- Hdiv. nra. }
      rewrite Hdiv. solve_minmax.
  - solve_minmax.
Qed.

(** X13.  The passes of [generatePowerMap] share out the depth a cell
    requires: for a positive [depthPerPass], the powers of a cell summed
    over the passes, times [depthPerPass], are
    [min (max (heightValue * maxDepth) 0) (n * depthPerPass)] times
    [maxPower * powerAdjustment], with [n] the number of passes.  When
    [options.passes] does not cut the count, a cell of height in [0, 1]
    receives [heightValue * maxDepth] in all. *)
Theorem generatePowerMap_accumulated_power
        (heightmap : list (list R)) (profile : LaserProfile) (options : PowerMapOptions)
        (powerPasses : list PowerPass) (y x : nat) (row : list R) (heightValue : R) :
  0 < depthPerPass options ->
  generatePowerMap heightmap profile options = Some powerPasses ->
  nth_error heightmap y = Some row ->
  nth_error row x = Some heightValue ->
  let total :=
    fold_right Rplus 0
               (map (fun p : PowerPass => nth x (nth y (powerMap p) []) 0) powerPasses) in
  total * depthPerPass options
  = Math_min (Math_max (heightValue * pm_maxDepth options) 0)
             (INR (length powerPasses) * depthPerPass options)
    * (maxPower profile * powerAdjustment options)
  /\
  (0 <= heightValue <= 1 -> 0 <= pm_maxDepth options ->
   IZR (Math_ceil (pm_maxDepth options / depthPerPass options)) <= passes options ->
   total * depthPerPass options
   = heightValue * pm_maxDepth options * (maxPower profile * powerAdjustment options)).
Proof.
  intros Hd Hgen Hrow Hcell total.
  rewrite generatePowerMap_passes in Hgen. injection Hgen as <-.
  set (n := Z.to_nat _) in *.
  assert (Hn : length (map (powerPass heightmap profile options) (seq 0 n)) = n)
    by now rewrite length_map, length_seq.
  assert (Htotal :
            forall m : nat,
              fold_right Rplus 0
                (map (fun p : PowerPass => nth x (nth y (powerMap p) []) 0)
                     (map (powerPass heightmap profile options) (seq 0 m)))
              * depthPerPass options
              = Math_min (Math_max (heightValue * pm_maxDepth options) 0)
                         (INR m * depthPerPass options)
                * (maxPower profile * powerAdjustment options)).
  { induction m as [|m IH].
    - simpl. solve_minmax.
    - rewrite seq_S, !map_app. cbn [map plus].
      rewrite fold_right_app. cbn [fold_right].
      assert (Hshift : forall (l : list R) (a : R),
                 fold_right Rplus (a + 0) l = fold_right Rplus 0 l + a).
      { induction l as [|b l IHl]; intros a; simpl; [ring|]. rewrite IHl. ring. }
      rewrite Hshift, Rmult_plus_distr_r, IH.
      rewrite (powerPass_cell _ _ _ _ _ _ _ _ Hrow Hcell).
      pose proof (pass_fraction (heightValue * pm_maxDepth options)
                                (depthPerPass options) m Hd) as Hf.
      set (f := if Rgt_dec _ _ then _ else _) in *.
      assert (Hsplit :
                (if Rgt_dec (heightValue * pm_maxDepth options)
                            ((INR m + 1) * depthPerPass options - depthPerPass options)
                 then Math_min 1 ((heightValue * pm_maxDepth options
                                   - ((INR m + 1) * depthPerPass options
                                      - depthPerPass options))
                                  / depthPerPass options)
                      * maxPower profile * powerAdjustment options
                 else 0)
                = f * (maxPower profile * powerAdjustment options)).
      { unfold f. destruct (Rgt_dec _ _); ring. }
      rewrite Hsplit.
      replace (f * (maxPower profile * powerAdjustment options) * depthPerPass options)
        with (f * depthPerPass options * (maxPower profile * powerAdjustment options))
        by ring.
      rewrite Hf. ring. }
  split.
  - unfold total. rewrite Hn. apply Htotal.
  - intros Hh Hmax Hpasses. unfold total. rewrite Htotal. f_equal.
    assert (Hall : pm_maxDepth options <= INR n * depthPerPass options).
    { destruct (Math_ceil_bounds (pm_maxDepth options / depthPerPass options))
        as [_ Hc].
      set (c := Math_ceil (pm_maxDepth options / depthPerPass options)) in *.
      assert (Hmin : Math_min (IZR c) (passes options) = IZR c)
        by (unfold Math_min; apply Rmin_left; exact Hpasses).
      unfold n. rewrite Hmin, Math_ceil_integer.
      assert (Hq : 0 <= pm_maxDepth options / depthPerPass options).
      { apply Rmult_le_pos; [exact Hmax|]. left. now apply Rinv_0_lt_compat. }
      assert (Hc0 : (0 <= c)%Z).
      { assert (H : (-1 < c)%Z) by (apply lt_IZR; lra). lia. }
      rewrite INR_IZR_INZ, Z2Nat.id by exact Hc0.
      replace (pm_maxDepth options)
        with (pm_maxDepth options / depthPerPass options * depthPerPass options)
        by (field; lra).
      apply Rmult_le_compat_r; lra. }
    assert (heightValue * pm_maxDepth options <= pm_maxDepth options) by nra.
    assert (0 <= heightValue * pm_maxDepth options) by nra.
    solve_minmax.
Qed.

Lemma generatePowerMap_accumulated_power_witness :
  exists powerPasses : list PowerPass,
    generatePowerMap [[1]] seamann50 twoPassOptions = Some powerPasses /\
    fold_right Rplus 0
               (map (fun p : PowerPass => nth 0 (nth 0 (powerMap p) []) 0) powerPasses)
    * depthPerPass twoPassOptions
    = Math_min (Math_max (1 * pm_maxDepth twoPassOptions) 0)
               (INR (length powerPasses) * depthPerPass twoPassOptions)
      * (maxPower seamann50 * powerAdjustment twoPassOptions).
Proof.
  eexists. split; [apply generatePowerMap_passes|].
  pose proof (generatePowerMap_accumulated_power
                [[1]] seamann50 twoPassOptions _ 0 0 [1] 1
                ltac:(simpl; lra)
                (generatePowerMap_passes [[1]] seamann50 twoPassOptions)
                eq_refl eq_refl) as H.
  cbv zeta in H. exact (proj1 H).
Defined.

(** X12.  For a [depthPerPass] other than 0, [generatePowerMap] returns
    [ceil (min (ceil (maxDepth / depthPerPass)) passes)] passes.  The pass
    of index [k] has number [k + 1], the offset [- (k + 1) * depthPerPass]
    and the speed [baseSpeed * 0.9 ^ k]; its power map has the shape of the
    heightmap, and for a positive [depthPerPass] every power lies between 0
    and [maxPower * powerAdjustment]. *)
Theorem generatePowerMap_structure
        (heightmap : list (list R)) (profile : LaserProfile) (options : PowerMapOptions) :
  depthPerPass options <> 0 ->
  exists powerPasses : list PowerPass,
    generatePowerMap heightmap profile options = Some powerPasses /\
    length powerPasses
    = Z.to_nat (Math_ceil
                  (Math_min (IZR (Math_ceil (pm_maxDepth options / depthPerPass options)))
                            (passes options))) /\
    forall (k : nat) (p : PowerPass),
      nth_error powerPasses k = Some p ->
      passNumber p = S k /\
      pass_zOffset p = - (INR (S k) * depthPerPass options) /\
      speed p = baseSpeed options * 0.9 ^ k /\
      map (@length R) (powerMap p) = map (@length R) heightmap /\
      (0 < depthPerPass options ->
       0 <= maxPower profile * powerAdjustment options ->
       Forall (Forall (fun power =>
                         0 <= power <= maxPower profile * powerAdjustment options))
              (powerMap p)).
Proof.
  intros _. eexists. split; [apply generatePowerMap_passes|].
  split; [now rewrite length_map, length_seq|].
  intros k p Hp. apply nth_error_map_seq_inv in Hp as [_ ->].
  unfold powerPass. cbn [passNumber pass_zOffset speed powerMap].
  split; [lia|]. split; [rewrite S_INR; reflexivity|].
  split; [reflexivity|]. split.
  - rewrite map_map. apply map_ext. intros row. apply length_map.
  - intros Hd Hfull.
    apply Forall_map, Forall_forall. intros row _.
    apply Forall_map, Forall_forall. intros heightValue _.
    destruct (Rgt_dec _ _) as [Hgt|_]; [|lra].
    set (t := (heightValue * pm_maxDepth options
               - ((INR k + 1) * depthPerPass options - depthPerPass options))
              / depthPerPass options).
    assert (Ht : 0 < t).
    { unfold t. apply Rmult_lt_0_compat; [lra|]. now apply Rinv_0_lt_compat. }
    assert (Hm : 0 <= Math_min 1 t <= 1) by solve_minmax.
    rewrite Rmult_assoc.
    set (full := maxPower profile * powerAdjustment options) in *.
    nra.
Qed.

Lemma generatePowerMap_structure_witness :
  exists powerPasses : list PowerPass,
    generatePowerMap [[1]] seamann50 twoPassOptions = Some powerPasses /\
    length powerPasses
    = Z.to_nat (Math_ceil
                  (Math_min (IZR (Math_ceil (pm_maxDepth twoPassOptions
                                             / depthPerPass twoPassOptions)))
                            (passes twoPassOptions))).
Proof.
  destruct (generatePowerMap_structure [[1]] seamann50 twoPassOptions)
    as (powerPasses & Hgen & Hlen & _); [simpl; lra|].
  exists powerPasses. split; assumption.
Defined.

End PowerMapFacts.

Section HeightDepthFacts.
Import JS LaserProfileService.

(** The curve step of [calculateDepthFromHeightmap] keeps [0, 1]. *)
Lemma height_curve_unit (c : HeightCurve) (d : R) :
  0 <= d <= 1 ->
  0 <= match c with
       | exponential => Math_pow_nat d 2
       | logarithmic => Math_log (d * (Math_E - 1) + 1)
       | linear => d
       end <= 1.
Proof.
  intros Hd. destruct c.
  - exact Hd.
  - unfold Math_pow_nat. simpl. nra.
  - pose proof (log_curve_monotone 0 d ltac:(lra)) as Hlo.
    pose proof (log_curve_monotone d 1 ltac:(lra)) as Hhi.
    rewrite log_curve_0 in Hlo. rewrite log_curve_1 in Hhi. lra.
Qed.

(** X14.  For a height in [0, 1] and a whole number [N] of levels,
    [calculateDepthFromHeightmap] returns a depth in [0, maxDepth]; with
    [N >= 2] it is one of the [N] depths [j / (N - 1) * maxDepth]; with
    [N <= 1] nothing is quantized, and the linear curve gives
    [heightValue * maxDepth], or [(1 - heightValue) * maxDepth] when
    inverted. *)
Theorem calculateDepthFromHeightmap_levels
        (heightValue maxDepth : R) (options : DepthOptions) (N : nat) :
  0 <= heightValue <= 1 ->
  levels options = INR N ->
  let depth := calculateDepthFromHeightmap heightValue maxDepth options in
  (0 <= maxDepth -> 0 <= depth <= maxDepth) /\
  ((2 <= N)%nat ->
   exists j : nat, (j <= N - 1)%nat /\ depth = INR j / (INR N - 1) * maxDepth) /\
  ((N <= 1)%nat -> curve options = linear ->
   depth = (if invert options then 1 - heightValue else heightValue) * maxDepth).
Proof.
  intros Hh HN depth. unfold depth, calculateDepthFromHeightmap. cbv zeta.
  set (d0 := if invert options then 1 - heightValue else heightValue).
  assert (Hd0 : 0 <= d0 <= 1) by (unfold d0; destruct (invert options); lra).
  pose proof (height_curve_unit (curve options) d0 Hd0) as Hd1.
  set (d1 := match curve options with
             | exponential => Math_pow_nat d0 2
             | logarithmic => Math_log (d0 * (Math_E - 1) + 1)
             | linear => d0
             end) in *.
  rewrite HN.
  destruct (Rgt_dec (INR N) 1) as [Hgt|Hle].
  - assert (HN2 : (2 <= N)%nat).
    { destruct N as [|[|N]]; simpl in Hgt; try lra. lia. }
    destruct (Math_round_level d1 N Hd1 HN2) as (j & Hj & ->).
    assert (HNr : 2 <= INR N) by (apply (le_INR 2); exact HN2).
    assert (Hjr : INR j <= INR N - 1).
    { replace (INR N - 1) with (INR (N - 1)); [apply le_INR; exact Hj|].
      rewrite minus_INR by lia. reflexivity. }
    assert (Hq : 0 <= INR j / (INR N - 1) <= 1).
    { split.
      - apply Rmult_le_pos; [apply pos_INR|]. left. apply Rinv_0_lt_compat. lra.
      - apply (Rmult_le_reg_r (INR N - 1)); [lra|].
        unfold Rdiv. rewrite Rmult_assoc, Rinv_l by lra. lra. }
    split; [intros Hm; nra|]. split; [intros _; exists j; auto|].
    intros H1. lia.
  - split; [intros Hm; nra|]. split.
    + intros HN2. exfalso. apply Hle. apply (le_INR 2) in HN2. simpl in HN2. lra.
    + intros _ Hlin. unfold d1. now rewrite Hlin.
Qed.

Lemma calculateDepthFromHeightmap_levels_witness :
  exists j : nat,
    (j <= 3 - 1)%nat /\
    calculateDepthFromHeightmap 0.25 2 threeLevels = INR j / (INR 3 - 1) * 2.
Proof.
  pose proof (calculateDepthFromHeightmap_levels 0.25 2 threeLevels 3
                ltac:(lra) eq_refl) as H.
  cbv zeta in H. destruct H as (_ & Hlevel & _).
  apply Hlevel. lia.
Defined.

End HeightDepthFacts.

Section GreatestFacts.
Import JS.

Lemma fold_left_Rmax_greatest (rest : list R) (x : R) :
  let greatest := fold_left Rmax rest x in
  In greatest (x :: rest) /\ Forall (fun v => v <= greatest) (x :: rest).
Proof.
  revert x. induction rest as [|a rest IH]; intros x; cbn [fold_left].
  - split; [now left|]. constructor; [lra|constructor].
  - destruct (IH (Rmax x a)) as [Hin Hall]. cbv zeta in Hin, Hall. split.
    + destruct Hin as [Hm|Hin]; [|right; now right].
      rewrite <- Hm. unfold Rmax. destruct (Rle_dec x a); [right|]; now left.
    + inversion Hall as [|? ? Hm Hrest]; subst.
      pose proof (Rmax_l x a). pose proof (Rmax_r x a).
      constructor; [lra|]. constructor; [lra|exact Hrest].
Qed.

Lemma Math_max_list_greatest (xs : list R) :
  xs <> [] ->
  exists greatest : R,
    Math_max_list xs = Some greatest /\
    In greatest xs /\ Forall (fun v => v <= greatest) xs.
Proof.
  destruct xs as [|x rest]; [congruence|]. intros _.
  exists (fold_left Rmax rest x). split; [reflexivity|].
  apply fold_left_Rmax_greatest.
Qed.

Lemma Math_ceil_monotone (u v : R) : u <= v -> (Math_ceil u <= Math_ceil v)%Z.
Proof.
  intros Huv.
  destruct (Math_ceil_bounds u) as [Hu _]. destruct (Math_ceil_bounds v) as [_ Hv].
  assert (H : (Math_ceil u - 1 < Math_ceil v)%Z).
  { apply lt_IZR. rewrite minus_IZR. lra. }
  lia.
Qed.

Lemma byte_value_range (b : byte) : 0 <= DepthMapService.byte_value b <= 255.
Proof.
  unfold DepthMapService.byte_value.
  pose proof (Byte.to_N_bounded b) as Hb.
  split.
  - apply IZR_le. lia.
  - apply IZR_le. lia.
Qed.

End GreatestFacts.

Section ToolpathStructure.
Import JS LaserEngravingService.

Lemma passToolpath_path heightmap settings k : path (passToolpath heightmap settings k) = [].
Proof.
  unfold passToolpath. cbn [path].
  destruct (strategy settings), (crosshatch settings); reflexivity.
Qed.

Lemma passCount_greatest (heightmap : list (list R)) (settings : ToolpathSettings) :
  concat heightmap <> [] ->
  exists greatest : R,
    In greatest (concat heightmap) /\
    Forall (fun v => v <= greatest) (concat heightmap) /\
    passCount heightmap settings
    = Some (Math_ceil (greatest * maxPasses settings / depthPerPass settings)).
Proof.
  intros Hcells.
  destruct (Math_max_list_greatest _ Hcells) as (greatest & Hmax & Hin & Hall).
  exists greatest. split; [exact Hin|]. split; [exact Hall|].
  unfold passCount. now rewrite Hmax.
Qed.

(** The count [ceil (greatest * maxPasses / depthPerPass)] stays within
    [ceil maxPasses] when the greatest height is at most [depthPerPass]. *)
Lemma passCount_within (greatest limit step : R) :
  0 < step -> 0 <= limit -> greatest <= step ->
  (Z.of_nat (Z.to_nat (Math_ceil (greatest * limit / step))) <= Math_ceil limit)%Z.
Proof.
  intros Hd Hm Hg.
  assert (Hle : greatest * limit / step <= limit).
  { apply (Rmult_le_reg_r step); [exact Hd|].
    unfold Rdiv. rewrite Rmult_assoc, Rinv_l by lra. nra. }
  apply Math_ceil_monotone in Hle.
  assert (H0 : (0 <= Math_ceil limit)%Z).
  { destruct (Math_ceil_bounds limit) as [_ Hc].
    assert (H : (-1 < Math_ceil limit)%Z) by (apply lt_IZR; lra).
    lia. }
  lia.
Qed.



End ToolpathStructure.

Section HeightmapFacts.
Import JS LaserEngravingService.

(** Every curve of this service keeps [0, 1]: the custom one is the
    identity. *)
Lemma applyDepthCurve_unit (d : R) (settings : DepthMapSettings) :
  0 <= d <= 1 -> 0 <= applyDepthCurve d settings <= 1.
Proof.
  intros Hd. unfold applyDepthCurve, interpolateCustomCurve.
  destruct (curve settings).
  - exact Hd.
  - unfold Math_pow_nat. simpl. nra.
  - pose proof (log_curve_monotone 0 d ltac:(lra)) as Hlo.
    pose proof (log_curve_monotone d 1 ltac:(lra)) as Hhi.
    rewrite log_curve_0 in Hlo. rewrite log_curve_1 in Hhi. lra.
  - destruct (customCurve settings); exact Hd.
Qed.

Lemma heightmapCell_level (imageData : ImageData) (settings : DepthMapSettings)
      (N x y : nat) :
  levels settings = INR N ->
  let cell := heightmapCell imageData settings x y in
  0 <= cell <= 1 /\
  ((2 <= N)%nat -> exists j : nat, (j <= N - 1)%nat /\ cell = INR j / (INR N - 1)).
Proof.
  intros HN cell. unfold cell, heightmapCell. cbv zeta.
  set (i := ((y * width imageData + x) * 4)%nat).
  pose proof (byte_value_range (nth i (data imageData) x00)) as Hr.
  pose proof (byte_value_range (nth (i + 1) (data imageData) x00)) as Hg.
  pose proof (byte_value_range (nth (i + 2) (data imageData) x00)) as Hb.
  set (d0 := (_ + _ + _) / (3 * 255)).
  assert (Hd0 : 0 <= d0 <= 1) by (unfold d0; lra).
  pose proof (applyDepthCurve_unit d0 settings Hd0) as Hd1.
  set (d1 := applyDepthCurve d0 settings) in *.
  rewrite HN.
  destruct (Rgt_dec (INR N) 1) as [Hgt|Hle].
  - assert (HN2 : (2 <= N)%nat).
    { destruct N as [|[|N]]; simpl in Hgt; try lra. lia. }
    destruct (Math_round_level d1 N Hd1 HN2) as (j & Hj & ->).
    assert (HNr : 2 <= INR N) by (apply (le_INR 2); exact HN2).
    assert (Hminus : INR (N - 1 - j) = INR N - 1 - INR j).
    { rewrite !minus_INR by lia. reflexivity. }
    assert (Hjr : INR j <= INR N - 1).
    { pose proof (pos_INR (N - 1 - j)). lra. }
    assert (Hq : 0 <= INR j / (INR N - 1) <= 1).
    { split.
      - apply Rmult_le_pos; [apply pos_INR|]. left. apply Rinv_0_lt_compat. lra.
      - apply (Rmult_le_reg_r (INR N - 1)); [lra|].
        unfold Rdiv. rewrite Rmult_assoc, Rinv_l by lra. lra. }
    destruct (invert settings).
    + split; [lra|]. intros _. exists (N - 1 - j)%nat. split; [lia|].
      rewrite Hminus. field. lra.
    + split; [lra|]. intros _. exists j. auto.
  - split; [destruct (invert settings); lra|].
    intros HN2. exfalso. apply Hle. apply (le_INR 2) in HN2. simpl in HN2. lra.
Qed.

(** X16.  The heightmap of [generateEnhancedHeightmap], for an image whose
    buffer holds its [4 * width * height] bytes and a whole number [N] of
    levels, has [height] rows of [width] cells, every cell in [0, 1]; with
    [N >= 2] every cell is one of the levels [j / (N - 1)], inverted or
    not. *)
Theorem generateEnhancedHeightmap_levels
        (imageData : ImageData) (settings : DepthMapSettings) (N : nat) :
  length (data imageData) = (width imageData * height imageData * 4)%nat ->
  levels settings = INR N ->
  let heightmap := generateEnhancedHeightmap imageData settings in
  length heightmap = height imageData /\
  Forall (fun row =>
            length row = width imageData /\
            Forall (fun cell =>
                      0 <= cell <= 1 /\
                      ((2 <= N)%nat ->
                       exists j : nat, (j <= N - 1)%nat /\ cell = INR j / (INR N - 1)))
                   row)
         heightmap.
Proof.
  intros _ HN heightmap.
  unfold heightmap, generateEnhancedHeightmap, enhanceHeightmapDetails. cbv zeta.
  split; [now rewrite length_map, length_seq|].
  apply Forall_map, Forall_forall. intros y _.
  split; [now rewrite length_map, length_seq|].
  apply Forall_map, Forall_forall. intros x _.
  apply heightmapCell_level. exact HN.
Qed.

Lemma generateEnhancedHeightmap_levels_witness :
  length (generateEnhancedHeightmap (whiteImage 2 1) fourLevels) = 1%nat.
Proof.
  pose proof (generateEnhancedHeightmap_levels (whiteImage 2 1) fourLevels 4
                eq_refl eq_refl) as H.
  cbv zeta in H. exact (proj1 H).
Defined.

Lemma generateEnhancedHeightmap_cells (imageData : ImageData)
      (settings : DepthMapSettings) (cell : R) :
  In cell (concat (generateEnhancedHeightmap imageData settings)) ->
  exists x y : nat, cell = heightmapCell imageData settings x y.
Proof.
  unfold generateEnhancedHeightmap, enhanceHeightmapDetails. cbv zeta.
  intros Hin. apply in_concat in Hin as (row & Hrow & Hcell).
  apply in_map_iff in Hrow as (y & <- & _).
  apply in_map_iff in Hcell as (x & <- & _).
  now exists x, y.
Qed.

Lemma generateEnhancedHeightmap_has_cell (imageData : ImageData)
      (settings : DepthMapSettings) :
  (1 <= width imageData)%nat -> (1 <= height imageData)%nat ->
  concat (generateEnhancedHeightmap imageData settings) <> [].
Proof.
  intros Hw Hh. unfold generateEnhancedHeightmap, enhanceHeightmapDetails. cbv zeta.
  destruct (width imageData) as [|w]; [lia|].
  destruct (height imageData) as [|h]; [lia|].
  cbn [seq map concat app]. discriminate.
Qed.

(** X17.  [generate3DEngraving] on an image with a pixel, with a whole
    number of levels, returns the heightmap of [generateEnhancedHeightmap]
    and the toolpaths of [generateOptimizedToolpaths] on it.  Its heights
    being at most 1, a [depthPerPass] of at least 1 keeps the number of
    passes within [ceil maxPasses]; the passes are numbered 1, 2, ... and
    carry no path point. *)
Theorem generate3DEngraving_passes_within_maxPasses
        (imageData : ImageData) (depthSettings : DepthMapSettings)
        (toolpathSettings : ToolpathSettings) (N : nat) :
  (1 <= width imageData)%nat -> (1 <= height imageData)%nat ->
  length (data imageData) = (width imageData * height imageData * 4)%nat ->
  levels depthSettings = INR N ->
  1 <= depthPerPass toolpathSettings ->
  0 <= maxPasses toolpathSettings ->
  exists toolpaths : list Toolpath,
    generate3DEngraving imageData depthSettings toolpathSettings
    = Some (generateEnhancedHeightmap imageData depthSettings, toolpaths) /\
    (Z.of_nat (length toolpaths) <= Math_ceil (maxPasses toolpathSettings))%Z /\
    map pass toolpaths = seq 1 (length toolpaths) /\
    Forall (fun t => path t = []) toolpaths.
Proof.
  intros Hw Hh _ HN Hd Hm. unfold generate3DEngraving. cbv zeta.
  set (heightmap := generateEnhancedHeightmap imageData depthSettings).
  destruct (passCount_greatest heightmap toolpathSettings
              (generateEnhancedHeightmap_has_cell _ _ Hw Hh))
    as (greatest & Hin & _ & Hcount).
  rewrite (generateOptimizedToolpaths_passes _ _ _ Hcount).
  eexists. split; [reflexivity|].
  rewrite length_map, length_seq. split; [|split].
  - apply passCount_within; [lra|exact Hm|].
    apply generateEnhancedHeightmap_cells in Hin as (x & y & ->).
    destruct (heightmapCell_level imageData depthSettings N x y HN) as [Hcell _].
    lra.
  - rewrite map_map. unfold passToolpath. cbn [pass].
    rewrite <- seq_shift. apply map_ext. intros k. lia.
  - apply Forall_map, Forall_forall. intros k _. apply passToolpath_path.
Qed.

Lemma generate3DEngraving_passes_within_maxPasses_witness :
  exists toolpaths : list Toolpath,
    generate3DEngraving (whiteImage 2 1) fourLevels deepPassSettings
    = Some (generateEnhancedHeightmap (whiteImage 2 1) fourLevels, toolpaths) /\
    (Z.of_nat (length toolpaths) <= Math_ceil (maxPasses deepPassSettings))%Z.
Proof.
  destruct (generate3DEngraving_passes_within_maxPasses
              (whiteImage 2 1) fourLevels deepPassSettings 4)
    as (toolpaths & Hgen & Hlen & _);
    [simpl; lia | simpl; lia | reflexivity | reflexivity | simpl; lra | simpl; lra |].
  exists toolpaths. split; assumption.
Defined.

End HeightmapFacts.

Section MapInvariants.
Import JS.
Context {K V : Type}.
Variable same_key : K -> K -> bool.
Hypothesis same_key_eq : forall a b : K, same_key a b = true -> a = b.

(** A property of the entries survives [set] when the new entry has it. *)
Lemma map_set_Forall (P : K * V -> Prop) (k : K) (v : V) (m : JSMap K V) :
  Forall P m -> P (k, v) -> Forall P (map_set same_key k v m).
Proof.
  intros Hm Hnew. induction Hm as [|[k' v'] rest Hhead Hrest IH]; simpl.
  - constructor; [exact Hnew|constructor].
  - destruct (same_key k k') eqn:E.
    + apply same_key_eq in E. subst k'. constructor; assumption.
    + constructor; assumption.
Qed.

(** Setting a key to the value it has changes nothing. *)
Lemma map_set_get_id (k : K) (v : V) (m : JSMap K V) :
  map_get same_key k m = Some v -> map_set same_key k v m = m.
Proof.
  induction m as [|[k' v'] rest IH]; simpl; [discriminate|].
  destruct (same_key k k') eqn:E.
  - intros H. injection H as ->. reflexivity.
  - intros H. now rewrite IH.
Qed.

Lemma map_get_In (k : K) (v : V) (m : JSMap K V) :
  map_get same_key k m = Some v -> In (k, v) m.
Proof.
  induction m as [|[k' v'] rest IH]; simpl; [discriminate|].
  destruct (same_key k k') eqn:E.
  - intros H. injection H as ->. apply same_key_eq in E. subst k'. now left.
  - intros H. right. now apply IH.
Qed.

Lemma map_keys_set (k : K) (v : V) (m : JSMap K V) :
  In k (map_keys (map_set same_key k v m)).
Proof.
  unfold map_keys. induction m as [|[k' v'] rest IH]; simpl.
  - now left.
  - destruct (same_key k k') eqn:E; simpl.
    + apply same_key_eq in E. now left.
    + now right.
Qed.

End MapInvariants.

Section RegistryInvariant.
Import JS ProfileManagerService.
Local Open Scope string_scope.

Lemma addPrinterProfile_well_keyed profile this this' :
  addPrinterProfile profile this = Returns this' -> well_keyed this -> well_keyed this'.
Proof.
  unfold addPrinterProfile. destruct (prop profile "name") as [name|] eqn:E;
    simpl; [|discriminate].
  intros H (Hp & Hl & Hm). injection H as <-. repeat split; simpl; try assumption.
  apply (map_set_Forall _ same_value_zero_eq); assumption.
Qed.

Lemma addLaserProfile_well_keyed profile this this' :
  addLaserProfile profile this = Returns this' -> well_keyed this -> well_keyed this'.
Proof.
  unfold addLaserProfile. destruct (prop profile "name") as [name|] eqn:E;
    simpl; [|discriminate].
  intros H (Hp & Hl & Hm). injection H as <-. repeat split; simpl; try assumption.
  apply (map_set_Forall _ same_value_zero_eq); assumption.
Qed.

Lemma addMaterialProfile_well_keyed profile this this' :
  addMaterialProfile profile this = Returns this' -> well_keyed this -> well_keyed this'.
Proof.
  unfold addMaterialProfile. destruct (prop profile "type") as [type|] eqn:E;
    simpl; [|discriminate].
  intros H (Hp & Hl & Hm). injection H as <-. repeat split; simpl; try assumption.
  apply (map_set_Forall _ same_value_zero_eq); [assumption|].
  simpl. apply Forall_app. split; [|constructor; [exact E|constructor]].
  destruct (map_get same_value_zero type (materialProfiles this)) as [existing|] eqn:G;
    [|constructor].
  apply (map_get_In _ same_value_zero_eq) in G.
  unfold listed_by_type in Hm. rewrite Forall_forall in Hm.
  exact (Hm _ G).
Qed.

(** A call leaves the state as it was, or is one [add] that returned. *)
Lemma perform_is_add (this : Registry) (call : Call) :
  perform this call = this \/
  exists profile : jsval,
    addPrinterProfile profile this = Returns (perform this call) \/
    addLaserProfile profile this = Returns (perform this call) \/
    addMaterialProfile profile this = Returns (perform this call).
Proof.
  destruct call as [parsed|profile|profile|profile].
  - rewrite perform_importProfile. unfold importBody.
    destruct parsed as [data|e]; cbn [bind]; [|(left; reflexivity)].
    destruct (prop (Some data) "type") as [type|e] eqn:Etype; cbn [bind]; [|(left; reflexivity)].
    destruct (prop (Some data) "profile") as [profile|e] eqn:Eprofile; cbn [bind].
    + destruct (is_string type "printer").
      { destruct (addPrinterProfile profile this) eqn:E; [|(left; reflexivity)].
        right. exists profile. left. exact E. }
      destruct (is_string type "laser").
      { destruct (addLaserProfile profile this) eqn:E; [|(left; reflexivity)].
        right. exists profile. right. left. exact E. }
      destruct (is_string type "material"); [|(left; reflexivity)].
      destruct (addMaterialProfile profile this) eqn:E; [|(left; reflexivity)].
      right. exists profile. right. right. exact E.
    + destruct (is_string type "printer"); [(left; reflexivity)|].
      destruct (is_string type "laser"); [(left; reflexivity)|].
      destruct (is_string type "material"); (left; reflexivity).
  - unfold perform, stateAfter.
    destruct (addPrinterProfile profile this) eqn:E; [|(left; reflexivity)].
    right. exists profile. left. exact E.
  - unfold perform, stateAfter.
    destruct (addLaserProfile profile this) eqn:E; [|(left; reflexivity)].
    right. exists profile. right. left. exact E.
  - unfold perform, stateAfter.
    destruct (addMaterialProfile profile this) eqn:E; [|(left; reflexivity)].
    right. exists profile. right. right. exact E.
Qed.

Lemma perform_well_keyed (this : Registry) (call : Call) :
  well_keyed this -> well_keyed (perform this call).
Proof.
  intros H. destruct (perform_is_add this call) as [->|(profile & [E|[E|E]])].
  - exact H.
  - exact (addPrinterProfile_well_keyed _ _ _ E H).
  - exact (addLaserProfile_well_keyed _ _ _ E H).
  - exact (addMaterialProfile_well_keyed _ _ _ E H).
Qed.

Lemma reachable_well_keyed (calls : list Call) :
  well_keyed (fold_left perform calls emptyRegistry).
Proof.
  assert (H : forall this, well_keyed this -> well_keyed (fold_left perform calls this)).
  { induction calls as [|call calls IH]; intros this Hthis; simpl; [exact Hthis|].
    apply IH, perform_well_keyed, Hthis. }
  apply H. repeat split; constructor.
Qed.

(** What a [Map] keyed by name gives for a name. *)
Lemma keyed_by_name_get (m : JSMap jsval jsval) (name : string) (found : jsval) :
  keyed_by_name m ->
  map_get same_value_zero (Some (JStr name)) m = Some found ->
  exists fields : list (string * json),
    found = Some (JObj fields) /\ lookup "name" fields = Some (JStr name).
Proof.
  intros Hm Hget. apply (map_get_In _ same_value_zero_eq) in Hget.
  unfold keyed_by_name in Hm. rewrite Forall_forall in Hm.
  specialize (Hm _ Hget). simpl in Hm.
  destruct found as [[| b | r | s | items | fields]|]; simpl in Hm; try discriminate.
  exists fields. split; [reflexivity|]. now injection Hm.
Qed.

(** X19.  In every state that calls of the writing methods reach from the
    empty registry, a printer or laser profile that is found under a name
    has that [name], and every profile listed under a material type has
    that [type]. *)
Theorem registry_keys_are_names (calls : list Call) :
  let this := fold_left perform calls emptyRegistry in
  (forall (name : string) (profile : json),
      getPrinterProfile this name = Some profile ->
      member profile "name" = Some (JStr name)) /\
  (forall (name : string) (profile : json),
      getLaserProfile this name = Some profile ->
      member profile "name" = Some (JStr name)) /\
  (forall (type : string) (profile : jsval),
      In profile (getMaterialProfiles this type) ->
      exists value : json,
        profile = Some value /\ member value "type" = Some (JStr type)).
Proof.
  intros this. destruct (reachable_well_keyed calls) as (Hp & Hl & Hm).
  fold this in Hp, Hl, Hm. split; [|split].
  - intros name profile. unfold getPrinterProfile.
    destruct (map_get _ _ _) as [found|] eqn:G; [|discriminate].
    intros ->. destruct (keyed_by_name_get _ _ _ Hp G) as (fields & Hf & Hname).
    injection Hf as ->. exact Hname.
  - intros name profile. unfold getLaserProfile.
    destruct (map_get _ _ _) as [found|] eqn:G; [|discriminate].
    intros ->. destruct (keyed_by_name_get _ _ _ Hl G) as (fields & Hf & Hname).
    injection Hf as ->. exact Hname.
  - intros type profile. unfold getMaterialProfiles.
    destruct (map_get _ _ _) as [found|] eqn:G; [|intros []].
    intros Hin. apply (map_get_In _ same_value_zero_eq) in G.
    unfold listed_by_type in Hm. rewrite Forall_forall in Hm.
    specialize (Hm _ G). simpl in Hm. rewrite Forall_forall in Hm.
    specialize (Hm _ Hin).
    destruct profile as [[| b | r | s | items | fields]|]; simpl in Hm;
      try discriminate; eexists; (split; [reflexivity|]); simpl; congruence.
Qed.

Lemma registry_eta (this : Registry) :
  {| printerProfiles := printerProfiles this;
     laserProfiles := laserProfiles this;
     materialProfiles := materialProfiles this |} = this.
Proof. now destruct this. Qed.

(** X20.  In every state that calls of the writing methods reach from the
    empty registry, [exportProfile] of a laser or printer name that is not
    registered throws [Profile not found: ] followed by the name; for a
    registered name it returns the envelope of the profile, with [type],
    [profile], the [version] 1.0 and the [timestamp], and [importProfile]
    of that envelope returns [true] and leaves the registry as it is.  (The
    envelope stands for its JSON text: [JSON.parse] of [JSON.stringify] of
    it is taken to give it back.) *)
Theorem exportProfile_import_round_trip
        (calls : list Call) (timestamp name : string) :
  let this := fold_left perform calls emptyRegistry in
  match getLaserProfile this name with
  | None =>
      exportProfile timestamp name laser this = inl ("Profile not found: " ++ name)
  | Some profile =>
      exportProfile timestamp name laser this = inr (envelope laser profile timestamp) /\
      importProfile (Returns (envelope laser profile timestamp)) this
      = Returns (true, this)
  end /\
  match getPrinterProfile this name with
  | None =>
      exportProfile timestamp name printer this = inl ("Profile not found: " ++ name)
  | Some profile =>
      exportProfile timestamp name printer this
      = inr (envelope printer profile timestamp) /\
      importProfile (Returns (envelope printer profile timestamp)) this
      = Returns (true, this)
  end.
Proof.
  intros this. destruct (reachable_well_keyed calls) as (Hp & Hl & _).
  fold this in Hp, Hl. split.
  - unfold getLaserProfile, exportProfile.
    destruct (map_get same_value_zero (Some (JStr name)) (laserProfiles this))
      as [found|] eqn:G; [|reflexivity].
    destruct (keyed_by_name_get _ _ _ Hl G) as (fields & -> & Hname).
    split; [reflexivity|].
    unfold importProfile, importBody, envelope. simpl.
    unfold addLaserProfile. simpl. rewrite Hname. simpl.
    rewrite (map_set_get_id _ _ _ _ G), registry_eta. reflexivity.
  - unfold getPrinterProfile, exportProfile.
    destruct (map_get same_value_zero (Some (JStr name)) (printerProfiles this))
      as [found|] eqn:G; [|reflexivity].
    destruct (keyed_by_name_get _ _ _ Hp G) as (fields & -> & Hname).
    split; [reflexivity|].
    unfold importProfile, importBody, envelope. simpl.
    unfold addPrinterProfile. simpl. rewrite Hname. simpl.
    rewrite (map_set_get_id _ _ _ _ G), registry_eta. reflexivity.
Qed.

Lemma same_value_zero_string_neq (a b : string) :
  a <> b -> same_value_zero (Some (JStr a)) (Some (JStr b)) = false.
Proof. intros H. simpl. now apply String.eqb_neq. Qed.

(** X18.  [addMaterialProfile] of a profile with a string [type] appends
    the profile to the list of its type, leaves the list of every other
    type and the printer and laser profiles as they were, and makes the
    type one of [getAllMaterialTypes]. *)
Theorem addMaterialProfile_appends (this : Registry) (profile : json) (type : string) :
  member profile "type" = Some (JStr type) ->
  exists this' : Registry,
    addMaterialProfile (Some profile) this = Returns this' /\
    getMaterialProfiles this' type = (getMaterialProfiles this type ++ [Some profile])%list /\
    (forall other : string,
        other <> type -> getMaterialProfiles this' other = getMaterialProfiles this other) /\
    (In (Some (JStr type)) (getAllMaterialTypes this')) /\
    printerProfiles this' = printerProfiles this /\
    laserProfiles this' = laserProfiles this.
Proof.
  intros Htype. unfold addMaterialProfile.
  assert (Hprop : prop (Some profile) "type" = Returns (Some (JStr type))).
  { unfold prop. rewrite <- Htype. destruct profile; try reflexivity. discriminate. }
  rewrite Hprop. cbn [bind]. eexists. split; [reflexivity|].
  unfold getMaterialProfiles, getAllMaterialTypes.
  cbn [materialProfiles printerProfiles laserProfiles].
  split; [|split; [|split; [|split; reflexivity]]].
  - rewrite (map_get_set_same same_value_zero) by apply same_value_zero_string.
    reflexivity.
  - intros other Hother.
    rewrite (map_get_set_other same_value_zero same_value_zero_eq); [reflexivity|].
    now apply same_value_zero_string_neq.
  - apply (map_keys_set _ same_value_zero_eq).
Qed.

Lemma addMaterialProfile_appends_witness :
  exists this' : Registry,
    addMaterialProfile (Some oak) woodRegistry = Returns this' /\
    getMaterialProfiles this' "wood"
    = (getMaterialProfiles woodRegistry "wood" ++ [Some oak])%list.
Proof.
  destruct (addMaterialProfile_appends woodRegistry oak "wood")
    as (this' & Hadd & Hget & _); [reflexivity|].
  exists this'. split; assumption.
Defined.

(** X21.  [exportProfile(type, 'material')] looks the name up among the
    material types and exports the array of the profiles of the type.
    [importProfile] of that envelope returns [true], yet adds the array as
    one profile under the type [undefined]: the list of every type is as
    before, and [undefined] becomes one of [getAllMaterialTypes]. *)
Theorem exportProfile_material_import
        (this : Registry) (timestamp type : string) (exported : json) :
  exportProfile timestamp type material this = inr exported ->
  exists this' : Registry,
    exported = envelope material (arrayValue (getMaterialProfiles this type)) timestamp /\
    importProfile (Returns exported) this = Returns (true, this') /\
    (forall other : string,
        getMaterialProfiles this' other = getMaterialProfiles this other) /\
    In None (getAllMaterialTypes this') /\
    printerProfiles this' = printerProfiles this /\
    laserProfiles this' = laserProfiles this.
Proof.
  unfold exportProfile, getMaterialProfiles.
  destruct (map_get same_value_zero (Some (JStr type)) (materialProfiles this))
    as [profiles|] eqn:G; [|discriminate].
  cbn [truthy arrayValue]. intros H. injection H as <-.
  eexists. split; [reflexivity|]. split; [reflexivity|].
  cbn [materialProfiles printerProfiles laserProfiles getAllMaterialTypes].
  split; [|split; [|split; reflexivity]].
  - intros other.
    rewrite (map_get_set_other same_value_zero same_value_zero_eq); reflexivity.
  - apply (map_keys_set _ same_value_zero_eq).
Qed.

Lemma exportProfile_material_import_witness :
  exists this' : Registry,
    importProfile
      (Returns (envelope material (arrayValue [Some oak]) "2024-01-01T00:00:00.000Z"))
      woodRegistry
    = Returns (true, this') /\
    In None (getAllMaterialTypes this').
Proof.
  destruct (exportProfile_material_import
              woodRegistry "2024-01-01T00:00:00.000Z" "wood"
              (envelope material (arrayValue [Some oak]) "2024-01-01T00:00:00.000Z"))
    as (this' & _ & Himport & _ & Hkey & _); [reflexivity|].
  exists this'. split; assumption.
Defined.

End RegistryInvariant.

Section DependencyValidationFacts.
Import DependencyValidationService.
Local Open Scope string_scope.

Lemma prefix_append (p s : string) :
  String.prefix p s = true <-> exists t, s = p ++ t.
Proof.
  revert s. induction p as [|a p IH]; intros s.
  - split; [intros _; now exists s|]. intros _. destruct s; reflexivity.
  - destruct s as [|b s]; simpl.
    + split; [discriminate|intros [t Ht]; discriminate].
    + destruct (Ascii.ascii_dec a b) as [->|Hne].
      * rewrite IH. split; intros [t Ht]; exists t; [now rewrite Ht|now injection Ht].
      * split; [discriminate|]. intros [t Ht]. injection Ht as Hab _. congruence.
Qed.

Lemma append_assoc (a b c : string) : (a ++ b) ++ c = a ++ (b ++ c).
Proof. induction a as [|x a IH]; simpl; [reflexivity|now rewrite IH]. Qed.

Lemma includes_unfold (s sub : string) :
  includes s sub
  = if String.prefix sub s then true
    else match s with
         | EmptyString => false
         | String _ rest => includes rest sub
         end.
Proof. destruct s; reflexivity. Qed.

Lemma includes_append (s sub : string) :
  includes s sub = true <-> exists a b, s = a ++ sub ++ b.
Proof.
  induction s as [|c s IH]; rewrite includes_unfold.
  - destruct (String.prefix sub "") eqn:E.
    + apply prefix_append in E as [t Ht]. split; [intros _|reflexivity].
      exists "", t. exact Ht.
    + split; [discriminate|]. intros (a & b & H).
      destruct a; [|discriminate]. simpl in H.
      assert (E' : String.prefix sub "" = true) by (apply prefix_append; now exists b).
      congruence.
  - destruct (String.prefix sub (String c s)) eqn:E.
    + apply prefix_append in E as [t Ht]. split; [intros _|reflexivity].
      exists "", t. exact Ht.
    + rewrite IH. split.
      * intros (a & b & ->). now exists (String c a), b.
      * intros (a & b & H). destruct a as [|x a].
        -- simpl in H.
           assert (E' : String.prefix sub (String c s) = true)
             by (apply prefix_append; now exists b).
           congruence.
        -- injection H as _ ->. now exists a, b.
Qed.

(** An error that mentions a missing peer dependency mentions a missing
    package. *)
Lemma includes_peer_missing (error : string) :
  includes error "peer dep missing:" = true -> includes error "missing:" = true.
Proof.
  intros H. apply includes_append in H as (a & b & ->).
  apply includes_append. exists (a ++ "peer dep "), b.
  now rewrite append_assoc.
Qed.

Lemma fixError_missing_only (World : Type) (execAsync : string -> World -> bool * World)
      (missing_group peer_group : string -> option string)
      (state : list string * World) (error : string) :
  fixError World execAsync missing_group peer_group state error
  = let '(fixes, world) := state in
    if includes error "missing:" then
      match present (missing_group error) with
      | Some pkg =>
          let '(installed, world) := execAsync ("npm install " ++ pkg) world in
          if installed
          then (app fixes ["Installed missing package: " ++ pkg], world)
          else (app fixes ["Failed to install " ++ pkg], world)
      | None => (fixes, world)
      end
    else (fixes, world).
Proof.
  unfold fixError. destruct state as [fixes world].
  destruct (includes error "missing:") eqn:E; [reflexivity|].
  destruct (includes error "peer dep missing:") eqn:E'; [|reflexivity].
  apply includes_peer_missing in E'. congruence.
Qed.

(** X22.  [suggestFixes] gives one suggestion per error, in order, and
    never reads the pattern of the peer dependencies: an error that
    includes [peer dep missing:] includes [missing:], so the first branch
    takes it.  The suggestion is [Run: npm install ] followed by the first
    group of the match of [/missing: ([^@\s]+)/] ([undefined] when there is
    no match) for an error that includes [missing:], and
    [Manual review needed: ] followed by the error for every other. *)
Theorem suggestFixes_never_reads_peer_pattern
        (missing_group peer_group : string -> option string) (errors : list string) :
  suggestFixes missing_group peer_group errors
  = map (fun error =>
           if includes error "missing:"
           then "Run: npm install " ++ text_of (missing_group error)
           else "Manual review needed: " ++ error)
        errors
  /\
  length (suggestFixes missing_group peer_group errors) = length errors.
Proof.
  split; [|apply length_map].
  unfold suggestFixes. apply map_ext. intros error.
  destruct (includes error "missing:") eqn:E; [reflexivity|].
  destruct (includes error "peer dep missing:") eqn:E'; [|reflexivity].
  apply includes_peer_missing in E'. congruence.
Qed.

Lemma present_Some (pkg : option string) (p : string) :
  present pkg = Some p -> pkg = Some p /\ p <> "".
Proof.
  destruct pkg as [[|c q]|]; simpl; try discriminate.
  intros H. injection H as <-. split; [reflexivity|discriminate].
Qed.

Lemma fold_fixError (World : Type) (execAsync : string -> World -> bool * World)
      (missing_group peer_group : string -> option string)
      (errors : list string) (fixes : list string) (world : World) :
  exists (reported : list string) (world' : World),
    fold_left (fixError World execAsync missing_group peer_group) errors (fixes, world)
    = (app fixes reported, world') /\
    length reported = length (filter (fixable missing_group) errors) /\
    Forall (fun report =>
              exists error pkg,
                In error errors /\
                includes error "missing:" = true /\
                missing_group error = Some pkg /\ pkg <> "" /\
                (report = "Installed missing package: " ++ pkg \/
                 report = "Failed to install " ++ pkg))
           reported.
Proof.
  revert fixes world. induction errors as [|error errors IH]; intros fixes world.
  - exists [], world. cbn [fold_left]. rewrite app_nil_r. repeat split; constructor.
  - cbn [fold_left filter]. rewrite fixError_missing_only. unfold fixable at 1.
    assert (Hlater :
              forall reported : list string,
                Forall (fun report =>
                          exists error0 pkg,
                            In error0 errors /\
                            includes error0 "missing:" = true /\
                            missing_group error0 = Some pkg /\ pkg <> "" /\
                            (report = "Installed missing package: " ++ pkg \/
                             report = "Failed to install " ++ pkg)) reported ->
                Forall (fun report =>
                          exists error0 pkg,
                            In error0 (error :: errors) /\
                            includes error0 "missing:" = true /\
                            missing_group error0 = Some pkg /\ pkg <> "" /\
                            (report = "Installed missing package: " ++ pkg \/
                             report = "Failed to install " ++ pkg)) reported).
    { intros reported H. eapply Forall_impl; [|exact H].
      intros report (e & p & Hin & Hrest). exists e, p. split; [now right|exact Hrest]. }
    destruct (includes error "missing:") eqn:E; cbn [andb].
    + destruct (present (missing_group error)) as [pkg|] eqn:P.
      * apply present_Some in P as [Hpkg Hne].
        destruct (execAsync ("npm install " ++ pkg) world) as [installed world1].
        destruct installed.
        -- destruct (IH (app fixes ["Installed missing package: " ++ pkg]) world1)
             as (reported & world' & -> & Hlen & Hall).
           exists (("Installed missing package: " ++ pkg) :: reported), world'.
           rewrite <- app_assoc. split; [reflexivity|].
           split; [simpl; now rewrite Hlen|].
           constructor; [|now apply Hlater].
           exists error, pkg. repeat split; auto. now left.
        -- destruct (IH (app fixes ["Failed to install " ++ pkg]) world1)
             as (reported & world' & -> & Hlen & Hall).
           exists (("Failed to install " ++ pkg) :: reported), world'.
           rewrite <- app_assoc. split; [reflexivity|].
           split; [simpl; now rewrite Hlen|].
           constructor; [|now apply Hlater].
           exists error, pkg. repeat split; auto. now left.
      * destruct (IH fixes world) as (reported & world' & -> & Hlen & Hall).
        exists reported, world'. split; [reflexivity|].
        split; [exact Hlen|now apply Hlater].
    + destruct (IH fixes world) as (reported & world' & -> & Hlen & Hall).
      exists reported, world'. split; [reflexivity|].
      split; [exact Hlen|now apply Hlater].
Qed.

Lemma missing_match_example :
  missing_match "npm ERR! missing: left-pad@^1.3.0, required by app@1.0.0"
  = Some "left-pad"
  /\ missing_match "npm ERR! peer dep missing: react@>=16, required by ui@2.0.0"
     = Some "react"
  /\ missing_match "missing: @scope/pkg" = None
  /\ missing_match "missing:left-pad" = None.
Proof. repeat split; reflexivity. Qed.

Lemma all_token_token (s : string) : all_token (token s) = true.
Proof.
  induction s as [|c s IH]; [reflexivity|]. cbn [token].
  destruct (token_char c) eqn:E; [|reflexivity].
  cbn [all_token]. now rewrite E, IH.
Qed.

Lemma group_here_token (literal s found : string) :
  group_here literal s = Some found -> all_token found = true /\ found <> "".
Proof.
  unfold group_here. destruct (after literal s) as [rest|]; [|discriminate].
  pose proof (all_token_token rest) as Hall.
  destruct (token rest) as [|c t] eqn:E; [discriminate|].
  intros H. injection H as <-. split; [exact Hall|discriminate].
Qed.

Lemma first_group_token (literal s found : string) :
  first_group literal s = Some found -> all_token found = true /\ found <> "".
Proof.
  induction s as [|c s IH]; cbn [first_group].
  - destruct (group_here literal "") eqn:E; [|discriminate].
    intros H. injection H as <-. now apply group_here_token in E.
  - destruct (group_here literal (String c s)) eqn:E.
    + intros H. injection H as <-. now apply group_here_token in E.
    + exact IH.
Qed.

(** A package name holds no space: it does not start with
    [peer dependency ]. *)
Lemma token_not_peer_dependency (pkg : string) :
  all_token pkg = true -> String.prefix "peer dependency " pkg = false.
Proof.
  intros Hall. destruct (String.prefix "peer dependency " pkg) eqn:E; [|reflexivity].
  apply prefix_append in E as [t ->]. cbn in Hall. discriminate.
Qed.

Lemma prefix_app_same (a b c : string) :
  String.prefix (a ++ b) (a ++ c) = String.prefix b c.
Proof.
  induction a as [|x a IH]; [reflexivity|]. cbn [append String.prefix].
  destruct (Ascii.ascii_dec x x) as [_|Hne]; [exact IH|congruence].
Qed.

Lemma report_not_peer_dependency (pkg report : string) :
  all_token pkg = true ->
  report = "Installed missing package: " ++ pkg \/ report = "Failed to install " ++ pkg ->
  String.prefix "Installed peer dependency: " report = false /\
  String.prefix "Failed to install peer dependency " report = false.
Proof.
  intros Hall [->| ->].
  - split; reflexivity.
  - split; [reflexivity|].
    change "Failed to install peer dependency "
      with ("Failed to install " ++ "peer dependency ").
    rewrite prefix_app_same. now apply token_not_peer_dependency.
Qed.

(** X23.  [autoFixDependencies] reports one fix per error that includes
    [missing:] and names a package, at most one per error; the package is
    the first group of the match of [/missing: ([^@\s]+)/].  Each fix is
    [Installed missing package: ] or [Failed to install ] followed by the
    package, and a package holds no space: whatever the commands do, no fix
    starts with [Installed peer dependency: ] or with
    [Failed to install peer dependency ]. *)
Theorem autoFixDependencies_reports_no_peer_dependency
        (World : Type) (execAsync : string -> World -> bool * World)
        (errors : list string) (world : World) :
  let reported :=
    fst (autoFixDependencies World execAsync missing_match peer_match errors world) in
  length reported = length (filter (fixable missing_match) errors) /\
  (length reported <= length errors)%nat /\
  Forall (fun report =>
            (exists error pkg,
                In error errors /\
                includes error "missing:" = true /\
                missing_match error = Some pkg /\
                (report = "Installed missing package: " ++ pkg \/
                 report = "Failed to install " ++ pkg)) /\
            String.prefix "Installed peer dependency: " report = false /\
            String.prefix "Failed to install peer dependency " report = false)
         reported.
Proof.
  intros reported. unfold reported, autoFixDependencies.
  destruct (fold_fixError World execAsync missing_match peer_match errors [] world)
    as (new & world' & -> & Hlen & Hall).
  cbn [fst app]. split; [exact Hlen|]. split.
  - rewrite Hlen. apply filter_length_le.
  - eapply Forall_impl; [|exact Hall].
    intros report (error & pkg & Hin & Hinc & Hpkg & _ & Hreport).
    split; [now exists error, pkg|].
    apply (report_not_peer_dependency pkg); [|exact Hreport].
    now apply first_group_token in Hpkg.
Qed.

(** X24.  [validateDependencies] reports [valid] exactly when no error was
    found, or when the mode is auto-fix, whatever the installs did.  It
    reports the errors that were found; a thrown [Error] gives its message
    as the one error, and any other thrown value [Unknown error]; outside
    the auto-fix mode no command is run after the listing; in the
    post-review mode the fixes are those of [suggestFixes]. *)
Theorem validateDependencies_valid
        (World : Type) (execAsync : string -> World -> bool * World)
        (missing_group peer_group : string -> option string)
        (mode : ValidationMode) (found : Thrown + list string) (world : World) :
  let result :=
    validateDependencies World execAsync missing_group peer_group mode found world in
  (valid (fst result) = true <->
   found = inr [] \/ (mode = auto_fix /\ exists errors, found = inr errors)) /\
  (forall errors, found = inr errors -> errors = DependencyValidationService.errors (fst result)) /\
  (forall message, found = inl (thrown_Error message) ->
     fst result = {| valid := false; errors := [message]; fixes := None |}) /\
  (found = inl thrown_value ->
   fst result = {| valid := false; errors := ["Unknown error"]; fixes := None |}) /\
  (mode <> auto_fix -> snd result = world) /\
  (mode = post_review ->
   forall error errors, found = inr (error :: errors) ->
     fixes (fst result)
     = Some (suggestFixes missing_group peer_group (error :: errors))).
Proof.
  intros result. unfold result, validateDependencies.
  destruct found as [[message|]|[|error errors]]; cbn [length Nat.eqb];
    [| | |destruct mode;
          [|destruct (autoFixDependencies _ _ _ _ _ _) as [reported world']|]];
    cbn [fst snd valid DependencyValidationService.errors fixes];
    repeat split; intros;
    repeat match goal with
           | H : _ \/ _ |- _ => destruct H
           | H : _ /\ _ |- _ => destruct H
           | H : exists _, _ |- _ => destruct H
           end;
    try discriminate; try congruence.
  - now left.
  - right. split; [reflexivity|]. now exists (error :: errors).
Qed.

End DependencyValidationFacts.
